(** * ezmesh: identities, gossip payloads, dispatch and bootstrap

    A shallow embedding of the Go package [ezmesh] (peername.go, receiver.go,
    ezmesh.go) and the properties its design document states about it.

    Conventions.
    - A Go [uint64] is a [Z] in the range [0, 2^64); shifts wrap explicitly.
    - A Go [[]byte] is a [list byte]; a Go [string] is a [string].
    - A Go slice whose nil-ness the code tests is an [option (list _)],
      [None] being the nil slice.
    - A Go pointer is an address into a typed heap ([nat]); a pointer that
      may be nil is an [option] of an address.
    - A Go [error] is a message; a nil-able error is an [option error]. *)

From Stdlib Require Import ZArith Strings.Byte Ascii String.
From stdpp Require Import base list strings.

Open Scope Z_scope.

(** ** Machine integers and bytes *)

Definition uint64 := Z.

Definition wrap64 (x : Z) : uint64 := x mod 2 ^ 64.

(** [x << n] on a [uint64]. *)
Definition shl64 (x : uint64) (n : Z) : uint64 := wrap64 (x ≪ n).

(** The conversion [uint64(b)] of a byte. *)
Definition u8 (b : byte) : uint64 := Z.of_N (Byte.to_N b).

(** The conversion [byte(x)] of an integer: the low eight bits. *)
Definition byte_of_Z (x : Z) : byte :=
  default x00 (Byte.of_N (Z.to_N (x mod 256))).

(** [b[i]] for an index the caller has shown to be in range.  Go panics out of
    range; both users below index slices of at least eight bytes. *)
Definition at_index (b : list byte) (i : nat) : byte := nth i b x00.

Definition error := string.

(** A slice value that may be nil. *)
Definition slice (A : Type) := option (list A).

Definition slice_len {A} (s : slice A) : nat :=
  match s with
  | None => 0%nat
  | Some l => length l
  end.

(** ** encoding/binary *)

Definition LittleEndian_Uint64 (b : list byte) : uint64 :=
  Z.lor (Z.lor (Z.lor (Z.lor (Z.lor (Z.lor (Z.lor
    (u8 (at_index b 0))
    (shl64 (u8 (at_index b 1)) 8))
    (shl64 (u8 (at_index b 2)) 16))
    (shl64 (u8 (at_index b 3)) 24))
    (shl64 (u8 (at_index b 4)) 32))
    (shl64 (u8 (at_index b 5)) 40))
    (shl64 (u8 (at_index b 6)) 48))
    (shl64 (u8 (at_index b 7)) 56).

Definition BigEndian_Uint64 (b : list byte) : uint64 :=
  Z.lor (Z.lor (Z.lor (Z.lor (Z.lor (Z.lor (Z.lor
    (u8 (at_index b 7))
    (shl64 (u8 (at_index b 6)) 8))
    (shl64 (u8 (at_index b 5)) 16))
    (shl64 (u8 (at_index b 4)) 24))
    (shl64 (u8 (at_index b 3)) 32))
    (shl64 (u8 (at_index b 2)) 40))
    (shl64 (u8 (at_index b 1)) 48))
    (shl64 (u8 (at_index b 0)) 56).

(** The integer a byte sequence denotes, most significant byte first. *)
Definition big_endian_value (b : list byte) : Z :=
  fold_left (λ acc x, acc * 256 + u8 x) b 0.

(** The integer a byte sequence denotes, least significant byte first. *)
Definition little_endian_value (b : list byte) : Z :=
  fold_right (λ x acc, u8 x + 256 * acc) 0 b.

(** ** net.HardwareAddr *)

Definition HardwareAddr := list byte.

Definition hexDigit : string := "0123456789abcdef".

Definition hexDigit_at (i : Z) : ascii :=
  default "0"%char (String.get (Z.to_nat i) hexDigit).

(** The two hex digits [hexDigit[b>>4]], [hexDigit[b&0xF]] of an octet. *)
Definition hex_octet (b : Z) : string :=
  String (hexDigit_at (b ≫ 4)) (String (hexDigit_at (Z.land b 15)) "").

(** [func (a HardwareAddr) String() string]: lowercase hex octets joined by
    colons, the empty string for an empty address. *)
Definition HardwareAddr_String (a : HardwareAddr) : string :=
  if decide (length a = 0%nat) then ""
  else
    fold_left
      (λ buf '(i, b),
         let buf := if decide (0 < i)%nat then buf +:+ ":" else buf in
         buf +:+ hex_octet (u8 b))
      (imap pair a) "".

(** ** Pointers, handlers and the receive hook *)

(** An address in one of the typed heaps below. *)
Definition ptr := nat.

(** A Go function value of type [func(p, src, message) error],
    identified by name; what it does when called is a parameter of the
    development ([run_handler] below). *)
Definition Handler := nat.

(** [type receiver struct { p *Peer }]; the package builds a receiver only in
    [New], around the Peer it has just allocated. *)
Module receiver.
Record t := { p : ptr }.
End receiver.

(** ** The vendored mesh library *)

Module mesh.

Definition PeerName := uint64.

Definition hex_value (c : ascii) : option Z :=
  let n := Z.of_nat (nat_of_ascii c) in
  if (48 <=? n) && (n <=? 57) then Some (n - 48)
  else if (97 <=? n) && (n <=? 102) then Some (n - 87)
  else if (65 <=? n) && (n <=? 70) then Some (n - 55)
  else None.

(** One group: one or two hex digits; any other digit count is malformed. *)
Definition parse_octet (g : string) : option Z :=
  match g with
  | String c "" => hex_value c
  | String c (String d "") =>
      hi ← hex_value c; lo ← hex_value d; Some (16 * hi + lo)
  | _ => None
  end.

(** The colon-separated groups of a string. *)
Fixpoint split_colon (s : string) : list string :=
  match s with
  | "" => [""]
  | String c rest =>
      if decide (c = ":"%char) then "" :: split_colon rest
      else match split_colon rest with
           | g :: gs => String c g :: gs
           | [] => [String c ""]
           end
  end.

Definition nonempty (g : string) : bool :=
  match g with
  | "" => false
  | _ => true
  end.

(** The leading groups before the first empty one, and what follows. *)
Fixpoint break_groups (gs : list string) : list string * list string :=
  match gs with
  | [] => ([], [])
  | g :: rest =>
      if nonempty g then
        let '(pre, post) := break_groups rest in (g :: pre, post)
      else ([], gs)
  end.

(** The groups present around one elision mark [::]. *)
Definition elided (pre post : list string) : option (list string) :=
  let k := (length pre + length post)%nat in
  if forallb nonempty post && bool_decide (1 ≤ k ≤ 4)%nat
  then Some (pre ++ replicate (6 - k) "0" ++ post)
  else None.

(** Six groups written out in full, or fewer with a run of zero groups
    elided once: in front, in the middle or at the end. *)
Definition six_groups (gs : list string) : option (list string) :=
  match break_groups gs with
  | (pre, []) => if decide (length pre = 6%nat) then Some pre else None
  | ([], "" :: "" :: post) => elided [] post
  | (pre, ["" ; ""]) => elided pre []
  | ([], _) => None
  | (pre, "" :: post) => if nonempty (default "" (head post))
                         then elided pre post else None
  | _ => None
  end.

Definition UnknownPeerName : PeerName := 0.

(** Modelled from the spec: the vendored [mesh.PeerNameFromString], whose
    source is not part of the files at hand.  It parses a colon-separated
    sequence of hex octets, accepts the elision of a run of zero groups, and
    yields at most six significant bytes, most significant first; a wrong
    digit count, too many groups or a non-hex character is a parse error. *)
Definition PeerNameFromString (nameStr : string) : PeerName * option error :=
  match six_groups (split_colon nameStr) ≫= mapM parse_octet with
  | Some octets =>
      (fold_left (λ acc o, Z.lor (shl64 acc 8) o) octets 0, None)
  | None => (UnknownPeerName, Some "invalid peer name format")
  end.

(** Modelled from the spec: the vendored [mesh.PeerName.String], whose
    source is not part of the files at hand.  It renders the low six bytes,
    most significant first, as colon-separated lowercase hex octets. *)
Definition PeerName_String (name : PeerName) : string :=
  HardwareAddr_String
    (map (λ i, byte_of_Z (name ≫ (8 * i))) [5; 4; 3; 2; 1; 0]).

(** [mesh.Config], as far as [New] fills it in. *)
Record Config := {
  Host : string;
  Port : Z;
  ProtocolMinVersion : Z;
  Password : list byte;
  ConnLimit : Z;
  PeerDiscovery : bool;
  TrustedSubnets : list (list byte * list byte);
}.

(** An entry of the membership view, [mesh.PeerDescription]. *)
Record PeerDescription := {
  Name : PeerName;
  NickName : string;
}.

End mesh.

(** The textual form of an identity string with every group written as two
    digits. *)
Definition pad_octet (g : string) : string :=
  match g with
  | String c "" => String "0" (String c "")
  | _ => g
  end.

Definition join_colon (gs : list string) : string := String.concat ":" gs.

Definition canonicalForm (x : string) : string :=
  join_colon (map pad_octet (mesh.split_colon x)).

Definition lower_hex (c : ascii) : bool :=
  let n := Z.of_nat (nat_of_ascii c) in
  ((48 <=? n) && (n <=? 57)) || ((97 <=? n) && (n <=? 102)).

Definition lower_octet (g : string) : bool :=
  match g with
  | String c "" => lower_hex c
  | String c (String d "") => lower_hex c && lower_hex d
  | _ => false
  end.

(** A well-formed identity string: exactly six colon-separated lowercase hex
    octets. *)
Definition wellformed6 (x : string) : bool :=
  let gs := mesh.split_colon x in
  bool_decide (length gs = 6%nat) && forallb lower_octet gs.

(** ** What lies outside the package

    The gossip transport, the hash function and the address type are
    collaborators of the package.  The transport acts on a state of its own,
    the [World]; its operations are taken as they come. *)

Record Platform := {
  World : Type;
  Router : Type;
  Gossip : Type;
  Logger : Type;
  TCPAddr : Type;
  (** [sha512.Sum512], of result type [[64]byte] *)
  sha512_Sum512 : list byte → list byte;
  sha512_Size : ∀ m, length (sha512_Sum512 m) = 64%nat;
  (** the [String] method of a TCP address *)
  TCPAddr_String : TCPAddr → string;
  (** [mesh.NewRouter(config, name, nickName, overlay, logger)] *)
  NewRouter :
    mesh.Config → mesh.PeerName → string → Logger → World → Router * World;
  (** [router.NewGossip(channel, gossiper)] *)
  NewGossip : Router → string → receiver.t → World → Gossip * World;
  (** [router.Start()], when it returns; [Listening] below has the listener
      that cannot start *)
  Start : Router → World → World;
  (** [router.ConnectionMaker.InitiateConnections(peers, replace)] *)
  InitiateConnections :
    Router → list string → bool → World → slice error * World;
  (** [router.Peers.Descriptions()] *)
  Descriptions : Router → World → list mesh.PeerDescription;
}.

(** ** peername.go *)

Definition PeerName := uint64.

Definition PeerNameFromStringHash (E : Platform) (s : string) : PeerName :=
  let h := sha512_Sum512 E (list_byte_of_string s) in
  LittleEndian_Uint64 (take 8 h).

Definition PeerNameFromMACAddr (a : string) : PeerName * option error :=
  let '(pn, err) := mesh.PeerNameFromString a in
  (pn, err).

Definition PeerNameFromHardwareAddr (E : Platform) (h : HardwareAddr)
  : PeerName * option error :=
  if decide (8 = length h)%nat then
    (BigEndian_Uint64 h, None)
  else if decide (length h < 8)%nat then
    PeerNameFromMACAddr (HardwareAddr_String h)
  else
    (PeerNameFromStringHash E (HardwareAddr_String h), None).

Definition PeerName_String (n : PeerName) : string := mesh.PeerName_String n.

Definition UnStringPeerName (s : string) : PeerName * option error :=
  let '(pn, err) := mesh.PeerNameFromString s in
  (pn, err).

(** ** receiver.go: the payload container *)

(** The part of [mesh.GossipData] that [Merge] consults in its argument. *)
Class GossipData (T : Type) := Encode : T → list (list byte).

(** [type gd []byte] *)
Definition gd := list byte.

(** [make([]byte, n)] *)
Definition make_bytes (n : nat) : list byte := replicate n x00.

(** [copy(dst, src)]: the first [min(len(dst), len(src))] bytes of [dst] are
    overwritten. *)
Definition copy (dst src : list byte) : list byte :=
  take (length dst) src ++ drop (length src) dst.

Definition gd_Encode (g : gd) : list (list byte) := [g].

#[export] Instance gd_GossipData : GossipData gd := gd_Encode.

Definition gd_Merge {T} `{GossipData T} (g : gd) (o : T) : gd :=
  let r := make_bytes (length g) in
  let r := copy r g in
  (* Flatten o *)
  fold_left (λ r bs, r ++ bs) (Encode o) r.

(** ** ezmesh.go: the data *)

Definition PROTOVERSION : Z := 2.

Module Peer.
Record t (E : Platform) := {
  OnMessage : option Handler;
  OnBroadcast : option Handler;
  TX : option (Gossip E);
  RX : option receiver.t;
  Router : option (Router E);
}.
Arguments OnMessage {E}.
Arguments OnBroadcast {E}.
Arguments TX {E}.
Arguments RX {E}.
Arguments Router {E}.

(** [Peer{}] *)
Definition zero (E : Platform) : t E :=
  {| OnMessage := None; OnBroadcast := None;
     TX := None; RX := None; Router := None |}.

Definition set_OnMessage {E} (v : option Handler) (x : t E) : t E :=
  {| OnMessage := v; OnBroadcast := OnBroadcast x;
     TX := TX x; RX := RX x; Router := Router x |}.
Definition set_OnBroadcast {E} (v : option Handler) (x : t E) : t E :=
  {| OnMessage := OnMessage x; OnBroadcast := v;
     TX := TX x; RX := RX x; Router := Router x |}.
Definition set_TX {E} (v : option (Gossip E)) (x : t E) : t E :=
  {| OnMessage := OnMessage x; OnBroadcast := OnBroadcast x;
     TX := v; RX := RX x; Router := Router x |}.
Definition set_RX {E} (v : option receiver.t) (x : t E) : t E :=
  {| OnMessage := OnMessage x; OnBroadcast := OnBroadcast x;
     TX := TX x; RX := v; Router := Router x |}.
Definition set_Router {E} v (x : t E) : t E :=
  {| OnMessage := OnMessage x; OnBroadcast := OnBroadcast x;
     TX := TX x; RX := RX x; Router := v |}.
End Peer.

Module Config.
Record t (E : Platform) := {
  Address : string;
  Port : Z;
  Key : list byte;
  AutoConnect : bool;
  ConnLimit : Z;
  NickName : string;
  Name : option ptr;
  InitialPeers : slice (TCPAddr E);
  OnMessage : option Handler;
  OnBroadcast : option Handler;
}.
Arguments Address {E}.
Arguments Port {E}.
Arguments Key {E}.
Arguments AutoConnect {E}.
Arguments ConnLimit {E}.
Arguments NickName {E}.
Arguments Name {E}.
Arguments InitialPeers {E}.
Arguments OnMessage {E}.
Arguments OnBroadcast {E}.

Definition set_Name {E} (v : option ptr) (c : t E) : t E :=
  {| Address := Address c; Port := Port c; Key := Key c;
     AutoConnect := AutoConnect c; ConnLimit := ConnLimit c;
     NickName := NickName c; Name := v; InitialPeers := InitialPeers c;
     OnMessage := OnMessage c; OnBroadcast := OnBroadcast c |}.
Definition set_ConnLimit {E} (v : Z) (c : t E) : t E :=
  {| Address := Address c; Port := Port c; Key := Key c;
     AutoConnect := AutoConnect c; ConnLimit := v;
     NickName := NickName c; Name := Name c; InitialPeers := InitialPeers c;
     OnMessage := OnMessage c; OnBroadcast := OnBroadcast c |}.
End Config.

(** ** Memory, calls that leave the package, and the monad of the code *)

(** Every call that leaves the package: into the transport, or into a handler
    the application registered. *)
Inductive Call (E : Platform) :=
  | CallNewRouter (config : mesh.Config) (name : mesh.PeerName)
      (nickName : string) (logger : Logger E)
  | CallNewGossip (router : Router E) (channel : string) (g : receiver.t)
  | CallStart (router : Router E)
  | CallInitiateConnections (router : Router E) (peers : list string)
      (replace : bool)
  | CallDescriptions (router : Router E)
  | CallHandler (f : Handler) (p : ptr) (src : PeerName) (msg : list byte).
Arguments CallNewRouter {E}.
Arguments CallNewGossip {E}.
Arguments CallStart {E}.
Arguments CallInitiateConnections {E}.
Arguments CallDescriptions {E}.
Arguments CallHandler {E}.

(** The heap of [PeerName] cells (the targets of [Config.Name]), the heap of
    [Peer] structs, and the state of the transport. *)
Record Memory (E : Platform) := {
  names : list PeerName;
  peers : list (Peer.t E);
  world : World E;
}.
Arguments names {E}.
Arguments peers {E}.
Arguments world {E}.

(** The memory, and the calls made so far, oldest first. *)
Record State (E : Platform) := {
  mem : Memory E;
  trace : list (Call E);
}.
Arguments mem {E}.
Arguments trace {E}.

Inductive Outcome (E : Platform) (A : Type) :=
  | Ok (a : A) (s : State E)
  | Panic (reason : string).
Arguments Ok {E A}.
Arguments Panic {E A}.

Definition M (E : Platform) (A : Type) : Type := State E → Outcome E A.

Definition ret {E A} (a : A) : M E A := λ s, Ok a s.

Definition bind {E A B} (m : M E A) (k : A → M E B) : M E B :=
  λ s, match m s with
       | Ok a s' => k a s'
       | Panic reason => Panic reason
       end.

Declare Scope go_scope.
Delimit Scope go_scope with go.
Notation "x <- m ;; k" := (bind m (λ x, k))
  (at level 100, m at next level, right associativity) : go_scope.
Notation "m ;;; k" := (bind m (λ _, k))
  (at level 100, right associativity) : go_scope.

(** What a handler does when called: an outcome and an effect on the memory.
    The calls a handler makes itself are its own business.  These handlers
    leave the bytes of the message as they are; [InPlace] below has the
    handlers that write to them. *)
Definition HandlerSemantics (E : Platform) : Type :=
  Handler → ptr → PeerName → list byte → Memory E → option error * Memory E.

Section Package.
Context {E : Platform}.
Variable run_handler : HandlerSemantics E.

Local Open Scope go_scope.

Definition get_mem : M E (Memory E) := λ s, Ok (mem s) s.

Definition put_mem (m : Memory E) : M E unit :=
  λ s, Ok () {| mem := m; trace := trace s |}.

Definition record_call (c : Call E) : M E unit :=
  λ s, Ok () {| mem := mem s; trace := trace s ++ [c] |}.

Definition panic {A} (reason : string) : M E A := λ _, Panic reason.

(** [&v] for a [PeerName] variable that escapes. *)
Definition new_PeerName (v : PeerName) : M E ptr :=
  m <- get_mem ;;
  put_mem {| names := names m ++ [v]; peers := peers m; world := world m |} ;;;
  ret (length (names m)).

(** [*a] *)
Definition load_PeerName (a : option ptr) : M E PeerName :=
  m <- get_mem ;;
  match a ≫= (λ i, names m !! i) with
  | Some v => ret v
  | None => panic "nil pointer dereference"
  end.

(** [&Peer{...}] *)
Definition new_Peer (v : Peer.t E) : M E ptr :=
  m <- get_mem ;;
  put_mem {| names := names m; peers := peers m ++ [v]; world := world m |} ;;;
  ret (length (peers m)).

Definition load_Peer (p : ptr) : M E (Peer.t E) :=
  m <- get_mem ;;
  match peers m !! p with
  | Some v => ret v
  | None => panic "nil pointer dereference"
  end.

(** An assignment to a field of [*p]. *)
Definition update_Peer (p : ptr) (f : Peer.t E → Peer.t E) : M E unit :=
  v <- load_Peer p ;;
  m <- get_mem ;;
  put_mem {| names := names m; peers := <[p := f v]> (peers m);
             world := world m |}.

(** The target of a pointer-typed field. *)
Definition deref {A} (x : option A) : M E A :=
  match x with
  | Some v => ret v
  | None => panic "nil pointer dereference"
  end.

(** A call into the transport. *)
Definition transport {A} (c : Call E) (op : World E → A * World E) : M E A :=
  record_call c ;;;
  m <- get_mem ;;
  let '(a, w) := op (world m) in
  put_mem {| names := names m; peers := peers m; world := w |} ;;;
  ret a.

(** A call of a handler. *)
Definition call_handler (f : Handler) (p : ptr) (src : PeerName)
    (msg : list byte) : M E (option error) :=
  record_call (CallHandler f p src msg) ;;;
  m <- get_mem ;;
  let '(err, m') := run_handler f p src msg m in
  put_mem m' ;;;
  ret err.

(** ** receiver.go: the dispatcher *)

Definition handle (r : receiver.t) (f : option Handler) (n : mesh.PeerName)
    (msg : list byte) : M E (option error) :=
  match f with
  | None =>
      (* Ignore the message if there's no handler installed *)
      ret None
  | Some f => call_handler f (receiver.p r) n msg
  end.

Definition OnGossipUnicast (r : receiver.t) (src : mesh.PeerName)
    (msg : list byte) : M E (option error) :=
  rp <- load_Peer (receiver.p r) ;;
  handle r (Peer.OnMessage rp) src msg.

Definition OnGossipBroadcast (r : receiver.t) (src : mesh.PeerName)
    (msg : list byte) : M E (gd * option error) :=
  let g : gd := msg in
  rp <- load_Peer (receiver.p r) ;;
  err <- handle r (Peer.OnBroadcast rp) src msg ;;
  ret (g, err).

(** ** ezmesh.go: the operations *)

Definition Connect (p : ptr) (addrs : slice (TCPAddr E))
  : M E (slice error) :=
  match addrs with
  | None => ret None
  | Some addrs =>
      (* Turn addresses into strings *)
      let ips := replicate (length addrs) "" in
      let ips :=
        fold_left (λ ips '(i, a), <[i := TCPAddr_String E a]> ips)
          (imap pair addrs) ips in
      pv <- load_Peer p ;;
      router <- deref (Peer.Router pv) ;;
      transport (CallInitiateConnections router ips false)
        (InitiateConnections E router ips false)
  end.

Definition New (config : Config.t E) (l : Logger E)
  : M E (option ptr * slice error * option error) :=
  (* Make sure we have a nickname *)
  if decide ("" = Config.NickName config) then
    ret (None, None, Some "no nickname")
  else
    (* Make sure we have a Name *)
    config <-
      match Config.Name config with
      | None =>
          let pn := PeerNameFromStringHash E (Config.NickName config) in
          a <- new_PeerName pn ;;
          ret (Config.set_Name (Some a) config)
      | Some _ => ret config
      end ;;
    (* Make sure we don't have a negative connection limit *)
    let config :=
      if 0 >? Config.ConnLimit config then Config.set_ConnLimit 0 config
      else config in
    (* Peer to return *)
    peer <- new_Peer (Peer.zero E) ;;
    name <- load_PeerName (Config.Name config) ;;
    let mconfig :=
      {| mesh.Host := Config.Address config;
         mesh.Port := Config.Port config;
         mesh.ProtocolMinVersion := PROTOVERSION;
         mesh.Password := Config.Key config;
         mesh.ConnLimit := Config.ConnLimit config;
         mesh.PeerDiscovery := Config.AutoConnect config;
         mesh.TrustedSubnets := [] |} in
    router <-
      transport (CallNewRouter mconfig name (Config.NickName config) l)
        (NewRouter E mconfig name (Config.NickName config) l) ;;
    update_Peer peer (Peer.set_Router (Some router)) ;;;
    update_Peer peer (Peer.set_OnMessage (Config.OnMessage config)) ;;;
    update_Peer peer (Peer.set_OnBroadcast (Config.OnBroadcast config)) ;;;
    (* Sending and receiving structs. *)
    let rx := {| receiver.p := peer |} in
    tx <-
      transport (CallNewGossip router "defaultchannel" rx)
        (NewGossip E router "defaultchannel" rx) ;;
    update_Peer peer (Peer.set_RX (Some rx)) ;;;
    update_Peer peer (Peer.set_TX (Some tx)) ;;;
    (* Start the listener if we're meant to *)
    (if decide ("" ≠ Config.Address config) then
       pv <- load_Peer peer ;;
       r <- deref (Peer.Router pv) ;;
       transport (CallStart r) (λ w, ((), Start E r w))
     else ret ()) ;;;
    (* Connect to the initial peers *)
    errs <- Connect peer (Config.InitialPeers config) ;;
    ret (Some peer, errs, None).

(** The loop of [PeerNameFromNickName] over the membership view. *)
Fixpoint scan_NickName (ds : list mesh.PeerDescription) (nickname : string)
  : PeerName * bool :=
  match ds with
  | [] => (0, false)
  | pd :: ds =>
      if decide (mesh.NickName pd = nickname) then (mesh.Name pd, true)
      else scan_NickName ds nickname
  end.

(** The loop of [NickNameFromPeerName] over the membership view. *)
Fixpoint scan_PeerName (ds : list mesh.PeerDescription) (name : PeerName)
  : string * bool :=
  match ds with
  | [] => ("", false)
  | pd :: ds =>
      if decide (mesh.Name pd = name) then (mesh.NickName pd, true)
      else scan_PeerName ds name
  end.

Definition PeerNameFromNickName (p : ptr) (nickname : string)
  : M E (PeerName * bool) :=
  pv <- load_Peer p ;;
  router <- deref (Peer.Router pv) ;;
  ds <- transport (CallDescriptions router)
          (λ w, (Descriptions E router w, w)) ;;
  ret (scan_NickName ds nickname).

Definition NickNameFromPeerName (p : ptr) (name : PeerName)
  : M E (string * bool) :=
  pv <- load_Peer p ;;
  router <- deref (Peer.Router pv) ;;
  ds <- transport (CallDescriptions router)
          (λ w, (Descriptions E router w, w)) ;;
  ret (scan_PeerName ds name).

End Package.

(** ** Notions the statements use *)

(** The [Name] pointer of a configuration is nil or points to a cell. *)
Definition valid_Name {E} (s : State E) (c : Config.t E) : Prop :=
  match Config.Name c with
  | None => True
  | Some a => is_Some (names (mem s) !! a)
  end.

(** What the caller of [New] can read through its own copy of the
    configuration: the struct, and the cell its [Name] field points to. *)
Definition Config_view {E} (m : Memory E) (c : Config.t E)
  : Config.t E * option PeerName :=
  (c, Config.Name c ≫= (λ a, names m !! a)).

Definition is_CallNewRouter {E} (c : Call E) : bool :=
  match c with
  | CallNewRouter _ _ _ _ => true
  | _ => false
  end.

(** ** A small platform on which the statements can be run

    The transport keeps the addresses it was asked to dial; an address is
    unreachable when it is ["down:1"].  The membership view lists the local
    peer first, then two peers that share a nickname. *)

Definition toy : Platform := {|
  World := list string;
  Router := mesh.PeerName * string;
  Gossip := string;
  Logger := unit;
  TCPAddr := string;
  sha512_Sum512 := λ m, replicate 64 (default x00 (head m));
  sha512_Size := λ m, length_replicate 64 (default x00 (head m));
  TCPAddr_String := λ a, a;
  NewRouter := λ _ name nickName _ w, ((name, nickName), w);
  NewGossip := λ _ channel _ w, (channel, w);
  Start := λ _ w, w;
  InitiateConnections := λ _ ips _ w,
    (Some (omap (λ ip, if decide (ip = "down:1")
                       then Some ("cannot reach " +:+ ip) else None) ips),
     w ++ ips);
  Descriptions := λ r _,
    [ {| mesh.Name := r.1; mesh.NickName := r.2 |};
      {| mesh.Name := 7; mesh.NickName := "controller" |};
      {| mesh.Name := 9; mesh.NickName := "controller" |} ];
|}.

(** Handler 0 succeeds, every other handler fails; none touches the memory. *)
Definition toy_handlers : HandlerSemantics toy :=
  λ f _ _ _ m, (if decide (f = 0%nat) then None else Some "handler failed", m).

Definition toy_config : Config.t toy := {|
  Config.Address := "0.0.0.0";
  Config.Port := 3333;
  Config.Key := list_byte_of_string "kittens";
  Config.AutoConnect := true;
  Config.ConnLimit := -1;
  Config.NickName := "examplepeer";
  Config.Name := None;
  Config.InitialPeers := (Some ["up:1"; "down:1"] : slice (TCPAddr toy));
  Config.OnMessage := Some 0%nat;
  Config.OnBroadcast := Some 1%nat;
|}.

Definition toy_start : State toy :=
  {| mem := {| names := [42]; peers := []; world := ([] : World toy) |};
     trace := [] |}.

(** The state after [New(toy_config, l)]; the new Peer is at address 0. *)
Definition toy_joined : State toy :=
  match New toy_config () toy_start with
  | Ok _ s => s
  | Panic _ => toy_start
  end.

(** A Peer made by hand, [Peer{}], at address 0. *)
Definition toy_bare : State toy :=
  {| mem := {| names := []; peers := [Peer.zero toy];
               world := ([] : World toy) |};
     trace := [] |}.

(** [toy_config] with an explicit identity: [Name] points to the cell that
    holds 42. *)
Definition toy_named : Config.t toy := Config.set_Name (Some 0%nat) toy_config.

(** The Peer that [New] leaves at address 0 of [toy_joined]. *)
Definition toy_peer : Peer.t toy := {|
  Peer.OnMessage := Some 0%nat;
  Peer.OnBroadcast := Some 1%nat;
  Peer.TX := (Some "defaultchannel" : option (Gossip toy));
  Peer.RX := Some {| receiver.p := 0%nat |};
  Peer.Router :=
    (Some (7306357456645743973, "examplepeer") : option (Router toy));
|}.

(** ** ezmesh.go: sending *)

(** The send endpoint that [router.NewGossip] returns, [mesh.Gossip]. *)
Record Endpoint (E : Platform) := {
  (** [GossipUnicast(dst, msg)] *)
  GossipUnicast :
    Gossip E → mesh.PeerName → list byte → World E → option error * World E;
  (** [GossipBroadcast(update)] *)
  GossipBroadcast : Gossip E → gd → World E → World E;
}.
Arguments GossipUnicast {E}.
Arguments GossipBroadcast {E}.

Section Sending.
Context {E : Platform}.
Variable T : Endpoint E.

Local Open Scope go_scope.

(** A call of the send endpoint.  It acts on the transport; the trace keeps
    to the calls of construction, connection, lookup and dispatch. *)
Definition endpoint {A} (op : World E → A * World E) : M E A :=
  m <- get_mem ;;
  let '(a, w) := op (world m) in
  put_mem {| names := names m; peers := peers m; world := w |} ;;;
  ret a.

Definition Broadcast (p : ptr) (message : list byte) : M E unit :=
  pv <- load_Peer p ;;
  tx <- deref (Peer.TX pv) ;;
  endpoint (λ w, ((), GossipBroadcast T tx (message : gd) w)).

Definition Send (p : ptr) (dst : PeerName) (message : list byte)
  : M E (option error) :=
  pv <- load_Peer p ;;
  tx <- deref (Peer.TX pv) ;;
  endpoint (GossipUnicast T tx dst message).

End Sending.

(** ** examples/commander: getNickName *)

Section Commander.
Context {E : Platform}.

Local Open Scope go_scope.

Definition getNickName (p : ptr) (pn : PeerName) : M E string :=
  r <- NickNameFromPeerName p pn ;;
  let '(nn, ok) := r in
  if negb ok then ret "?" else ret nn.

End Commander.

(** ** examples/magent: makeInitialPeers *)

(** [strings.Split(s, sep)] for a separator of one byte. *)
Fixpoint strings_Split (s : string) (sep : ascii) : list string :=
  match s with
  | "" => [""]
  | String c rest =>
      if decide (c = sep) then "" :: strings_Split rest sep
      else match strings_Split rest sep with
           | g :: gs => String c g :: gs
           | [] => [String c ""]
           end
  end.

(** A function that may end the process instead: [log.Fatalf]. *)
Inductive Exit (A : Type) :=
  | Returns (a : A)
  | Fatal (message : string).
Arguments Returns {A}.
Arguments Fatal {A}.

(** What [makeInitialPeers] leaves behind: the addresses so far, the
    ["Unable to resolve"] lines it has logged (part and error), and the state
    of the resolver. *)
Record Resolved (Addr Resolver : Type) := {
  ips : list Addr;
  unresolved : list (string * error);
  resolver : Resolver;
}.
Arguments ips {Addr Resolver}.
Arguments unresolved {Addr Resolver}.
Arguments resolver {Addr Resolver}.

Section Agent.
Context {Addr Resolver : Type}.
(** [net.ResolveTCPAddr(network, address)] *)
Variable ResolveTCPAddr :
  string → string → Resolver → (Addr + error) * Resolver.

(** One round of the loop over the parts. *)
Definition resolve_part (acc : Resolved Addr Resolver) (p : string)
  : Resolved Addr Resolver :=
  (* Skip blank addresses *)
  if decide (0 = String.length p)%nat then acc
  else
    match ResolveTCPAddr "tcp" p (resolver acc) with
    | (inr err, r) =>
        {| ips := ips acc; unresolved := unresolved acc ++ [(p, err)];
           resolver := r |}
    | (inl a, r) =>
        {| ips := ips acc ++ [a]; unresolved := unresolved acc;
           resolver := r |}
    end.

Definition makeInitialPeers (l : string) (r : Resolver)
  : Exit (list Addr) * Resolved Addr Resolver :=
  (* Split list into parts *)
  let parts := strings_Split l ","%char in
  let acc :=
    fold_left resolve_part parts
      {| ips := []; unresolved := []; resolver := r |} in
  (* Die if we haven't any *)
  if decide (0 = length (ips acc))%nat then
    (Fatal "No good initial connection addresses found", acc)
  else (Returns (ips acc), acc).

End Agent.

(** A string without a colon. *)
Fixpoint colon_free (g : string) : Prop :=
  match g with
  | "" => True
  | String c g => c ≠ ":"%char ∧ colon_free g
  end.

(** ** ezmesh.go: New, with a listener that may fail to start

    [router.Start()] sets up the listener of the transport, and panics when
    it cannot: the address does not resolve, or the port is taken.  [Start]
    of the platform above always returns.  Here what [router.Start()] does is
    a parameter [start], which gives the transport afterwards or the value
    of the panic, and [New] is the source function over it.  With a [start]
    that always returns it is [New] above. *)

Module Listening.
Section WithStart.
Context {E : Platform}.
(** [router.Start()] *)
Variable start : Router E → World E → World E + string.

Local Open Scope go_scope.

(** The call [peer.Router.Start()]. *)
Definition listen (r : Router E) : M E unit :=
  record_call (CallStart r) ;;;
  m <- get_mem ;;
  match start r (world m) with
  | inl w => put_mem {| names := names m; peers := peers m; world := w |}
  | inr reason => panic reason
  end.

Definition New (config : Config.t E) (l : Logger E)
  : M E (option ptr * slice error * option error) :=
  (* Make sure we have a nickname *)
  if decide ("" = Config.NickName config) then
    ret (None, None, Some "no nickname")
  else
    (* Make sure we have a Name *)
    config <-
      match Config.Name config with
      | None =>
          let pn := PeerNameFromStringHash E (Config.NickName config) in
          a <- new_PeerName pn ;;
          ret (Config.set_Name (Some a) config)
      | Some _ => ret config
      end ;;
    (* Make sure we don't have a negative connection limit *)
    let config :=
      if 0 >? Config.ConnLimit config then Config.set_ConnLimit 0 config
      else config in
    (* Peer to return *)
    peer <- new_Peer (Peer.zero E) ;;
    name <- load_PeerName (Config.Name config) ;;
    let mconfig :=
      {| mesh.Host := Config.Address config;
         mesh.Port := Config.Port config;
         mesh.ProtocolMinVersion := PROTOVERSION;
         mesh.Password := Config.Key config;
         mesh.ConnLimit := Config.ConnLimit config;
         mesh.PeerDiscovery := Config.AutoConnect config;
         mesh.TrustedSubnets := [] |} in
    router <-
      transport (CallNewRouter mconfig name (Config.NickName config) l)
        (NewRouter E mconfig name (Config.NickName config) l) ;;
    update_Peer peer (Peer.set_Router (Some router)) ;;;
    update_Peer peer (Peer.set_OnMessage (Config.OnMessage config)) ;;;
    update_Peer peer (Peer.set_OnBroadcast (Config.OnBroadcast config)) ;;;
    (* Sending and receiving structs. *)
    let rx := {| receiver.p := peer |} in
    tx <-
      transport (CallNewGossip router "defaultchannel" rx)
        (NewGossip E router "defaultchannel" rx) ;;
    update_Peer peer (Peer.set_RX (Some rx)) ;;;
    update_Peer peer (Peer.set_TX (Some tx)) ;;;
    (* Start the listener if we're meant to *)
    (if decide ("" ≠ Config.Address config) then
       pv <- load_Peer peer ;;
       r <- deref (Peer.Router pv) ;;
       listen r
     else ret ()) ;;;
    (* Connect to the initial peers *)
    errs <- Connect peer (Config.InitialPeers config) ;;
    ret (Some peer, errs, None).

End WithStart.
End Listening.

(** The configuration that [New] hands to [mesh.NewRouter]. *)
Definition router_config {E} (c : Config.t E) : mesh.Config :=
  {| mesh.Host := Config.Address c;
     mesh.Port := Config.Port c;
     mesh.ProtocolMinVersion := 2;
     mesh.Password := Config.Key c;
     mesh.ConnLimit := Z.max 0 (Config.ConnLimit c);
     mesh.PeerDiscovery := Config.AutoConnect c;
     mesh.TrustedSubnets := [] |}.

(** The identity that [New] uses: the one [Name] points to, or the hash of
    the nickname. *)
Definition identity_of {E} (m : Memory E) (c : Config.t E) : PeerName :=
  match Config.Name c with
  | None => PeerNameFromStringHash E (Config.NickName c)
  | Some a => default 0 (names m !! a)
  end.

(** ** receiver.go: the dispatcher, with handlers that write to the message

    A handler is called with the slice [msg] itself, and [gd(msg)] is that
    slice again: same array, same length.  A handler that assigns to
    [msg[i]] therefore changes what the container returned by
    [OnGossipBroadcast] holds.  The handlers above cannot do that.  Here a
    handler also gives the assignments it makes to the elements of [msg], in
    their order, and a message is followed through the call by its bytes
    afterwards. *)

Module InPlace.

(** What a handler does: its outcome, the memory it leaves, and its
    assignments [msg[i] = x]. *)
Definition HandlerSemantics (E : Platform) : Type :=
  Handler → ptr → PeerName → list byte → Memory E
  → option error * Memory E * list (nat * byte).

(** The bytes of a slice after the assignments [ws].  An assignment outside
    the slice is a panic in Go, not an assignment: it changes no byte. *)
Definition written (msg : list byte) (ws : list (nat * byte)) : list byte :=
  fold_left (λ bytes '(i, x), <[i := x]> bytes) ws msg.

Section WithHandlers.
Context {E : Platform}.
Variable run_handler : HandlerSemantics E.

Local Open Scope go_scope.

(** A call of a handler: its outcome, and the bytes of [msg] after it. *)
Definition call_handler (f : Handler) (p : ptr) (src : PeerName)
    (msg : list byte) : M E (option error * list byte) :=
  record_call (CallHandler f p src msg) ;;;
  m <- get_mem ;;
  let '(err, m', ws) := run_handler f p src msg m in
  put_mem m' ;;;
  ret (err, written msg ws).

(** [handle], with the bytes of [msg] when it returns. *)
Definition handle (r : receiver.t) (f : option Handler) (n : mesh.PeerName)
    (msg : list byte) : M E (option error * list byte) :=
  match f with
  | None =>
      (* Ignore the message if there's no handler installed *)
      ret (None, msg)
  | Some f => call_handler f (receiver.p r) n msg
  end.

Definition OnGossipUnicast (r : receiver.t) (src : mesh.PeerName)
    (msg : list byte) : M E (option error) :=
  rp <- load_Peer (receiver.p r) ;;
  out <- handle r (Peer.OnMessage rp) src msg ;;
  ret out.1.

(** The container returned is [gd(msg)], the slice [msg]: its bytes are read
    when [OnGossipBroadcast] has returned, after the handler. *)
Definition OnGossipBroadcast (r : receiver.t) (src : mesh.PeerName)
    (msg : list byte) : M E (gd * option error) :=
  rp <- load_Peer (receiver.p r) ;;
  out <- handle r (Peer.OnBroadcast rp) src msg ;;
  let g : gd := out.2 in
  ret (g, out.1).

End WithHandlers.

End InPlace.

(** A handler that writes nothing to the message, as a handler that may. *)
Definition read_only {E} (run_handler : HandlerSemantics E)
  : InPlace.HandlerSemantics E :=
  λ f p src msg m, (run_handler f p src msg m, []).

(** ** The small platform, further *)

(** Only identity 7 has a route. *)
Definition toy_endpoint : Endpoint toy := {|
  GossipUnicast := λ _ dst _ w,
    (if decide (dst = 7) then None else Some "unknown route", w);
  GossipBroadcast := λ _ _ w, w;
|}.

(** A resolver that knows ["up:1"] and counts the questions it is asked. *)
Definition toy_resolve (network address : string) (asked : nat)
  : (string + error) * nat :=
  (if decide (address = "up:1") then inl address
   else inr "no such host", S asked).

(** A listener that starts, and one that finds its port taken. *)
Definition toy_listens : Router toy → World toy → World toy + string :=
  λ _ w, inl w.

Definition toy_busy : Router toy → World toy → World toy + string :=
  λ _ _, inr "listen tcp 0.0.0.0:3333: bind: address already in use".

(** Handler 0 succeeds and writes nothing; every other handler fails, after
    it has set the first byte of the message to zero. *)
Definition toy_scribbler : InPlace.HandlerSemantics toy :=
  λ f _ _ _ m,
    if decide (f = 0%nat) then (None, m, [])
    else (Some "handler failed", m, [(0%nat, x00)]).

(** * Properties *)

(** ** Bytes and words *)

Lemma u8_range (b : byte) : 0 ≤ u8 b < 256.
Proof.
  unfold u8. pose proof (Byte.to_N_bounded b). lia.
Qed.

Lemma u8_byte_of_Z (x : Z) : u8 (byte_of_Z x) = x mod 256.
Proof.
  unfold u8, byte_of_Z.
  assert (Hr : 0 ≤ x mod 256 < 256) by (apply Z.mod_pos_bound; lia).
  pose proof (Byte.to_of_N_option_map (Z.to_N (x mod 256))) as H.
  destruct (Byte.of_N (Z.to_N (x mod 256))) as [y|] eqn:Hy; simpl in *.
  - destruct (N.leb_spec (Z.to_N (x mod 256)) 255); [|lia].
    injection H as ->. lia.
  - destruct (N.leb_spec (Z.to_N (x mod 256)) 255); [discriminate|lia].
Qed.

(** Or-ing in a value shifted clear of the bits already there adds it. *)
Lemma lor_shiftl_add (lo hi n : Z) :
  0 ≤ n → 0 ≤ lo < 2 ^ n → Z.lor lo (hi ≪ n) = lo + hi * 2 ^ n.
Proof.
  intros Hn Hlo.
  rewrite <- Z.shiftl_mul_pow2 by done.
  symmetry. apply Z.add_nocarry_lor.
  apply Z.bits_inj'. intros i Hi.
  rewrite Z.land_spec, Z.bits_0.
  destruct (Z.lt_ge_cases i n) as [Hlt|Hge].
  - rewrite (Z.shiftl_spec_low hi n i) by done. apply andb_false_r.
  - assert (Z.testbit lo i = false) as ->; [|done].
    destruct (Z.eq_dec lo 0) as [->|Hne]; [apply Z.bits_0|].
    apply Z.bits_above_log2; [lia|].
    apply Z.lt_le_trans with n; [|done].
    apply Z.log2_lt_pow2; lia.
Qed.

Lemma shl64_small (x n : Z) :
  0 ≤ n → 0 ≤ x → x * 2 ^ n < 2 ^ 64 → shl64 x n = x * 2 ^ n.
Proof.
  intros Hn Hx Hlt. unfold shl64, wrap64.
  rewrite Z.shiftl_mul_pow2 by done.
  apply Z.mod_small. split; [|done].
  apply Z.mul_nonneg_nonneg; [done|]. apply Z.pow_nonneg. lia.
Qed.

(** One step of assembling a word from bytes. *)
Lemma lor_shl64_byte (acc v n : Z) :
  0 ≤ n ≤ 56 → 0 ≤ acc < 2 ^ n → 0 ≤ v < 256 →
  Z.lor acc (shl64 v n) = acc + v * 2 ^ n ∧ 0 ≤ acc + v * 2 ^ n < 2 ^ (n + 8).
Proof.
  intros Hn Hacc Hv.
  assert (Hp : 0 < 2 ^ n) by (apply Z.pow_pos_nonneg; lia).
  assert (Hle : 2 ^ n ≤ 2 ^ 56) by (apply Z.pow_le_mono_r; lia).
  assert (H64 : 2 ^ 64 = 256 * 2 ^ 56) by done.
  rewrite shl64_small by nia.
  rewrite <- (lor_shiftl_add acc v n), Z.shiftl_mul_pow2 by lia.
  rewrite <- (Z.shiftl_mul_pow2 v n), lor_shiftl_add by lia.
  split; [done|].
  rewrite Z.pow_add_r by lia. change (2 ^ 8) with 256. nia.
Qed.

Lemma BigEndian_Uint64_value (b : list byte) :
  length b = 8%nat →
  BigEndian_Uint64 b = big_endian_value b ∧ 0 ≤ big_endian_value b < 2 ^ 64.
Proof.
  intros Hlen.
  do 8 (destruct b as [|? b]; [discriminate|]).
  destruct b; [|discriminate].
  clear Hlen. unfold BigEndian_Uint64, big_endian_value, at_index. simpl.
  repeat match goal with b : byte |- _ =>
    pose proof (u8_range b); generalize dependent (u8 b); clear b; intros
  end.
  repeat match goal with
  | |- context [Z.lor ?a (shl64 ?v ?n)] =>
      let H := fresh in
      destruct (lor_shl64_byte a v n) as [-> H]; [lia|simpl; lia|lia|];
      simpl in H
  end.
  simpl. lia.
Qed.

Lemma LittleEndian_Uint64_value (b : list byte) :
  length b = 8%nat →
  LittleEndian_Uint64 b = little_endian_value b
  ∧ 0 ≤ little_endian_value b < 2 ^ 64.
Proof.
  intros Hlen.
  do 8 (destruct b as [|? b]; [discriminate|]).
  destruct b; [|discriminate].
  clear Hlen. unfold LittleEndian_Uint64, little_endian_value, at_index. simpl.
  repeat match goal with b : byte |- _ =>
    pose proof (u8_range b); generalize dependent (u8 b); clear b; intros
  end.
  repeat match goal with
  | |- context [Z.lor ?a (shl64 ?v ?n)] =>
      let H := fresh in
      destruct (lor_shl64_byte a v n) as [-> H]; [lia|simpl; lia|lia|];
      simpl in H
  end.
  simpl. lia.
Qed.

(** ** Textual rendering *)

Lemma append_nil_r (x : string) : x +:+ "" = x.
Proof.
  induction x as [|c x IH]; [done|].
  change (String c (x +:+ "") = String c x). by rewrite IH.
Qed.

Lemma append_assoc (x y z : string) : (x +:+ y) +:+ z = x +:+ (y +:+ z).
Proof.
  induction x as [|c x IH]; [done|].
  change (String c ((x +:+ y) +:+ z) = String c (x +:+ y +:+ z)).
  by rewrite IH.
Qed.

(** The loop of [HardwareAddr.String] past the first octet. *)
Lemma HardwareAddr_String_loop (a : list byte) (k : nat) (acc : string) :
  fold_left
    (λ buf '(i, b),
       let buf := if decide (0 < i)%nat then buf +:+ ":" else buf in
       buf +:+ hex_octet (u8 b))
    (imap (λ i, pair (S k + i)%nat) a) acc
  = fold_left (λ buf b, buf +:+ ":" +:+ hex_octet (u8 b)) a acc.
Proof.
  revert k acc. induction a as [|b a IH]; intros k acc; [done|].
  simpl. rewrite append_assoc.
  erewrite imap_ext; [apply (IH (S k))|].
  intros i x _. simpl. f_equal. lia.
Qed.

Lemma join_colon_map {A} (f : A → string) (x : string) (l : list A) :
  join_colon (x :: map f l) = fold_left (λ buf b, buf +:+ ":" +:+ f b) l x.
Proof.
  revert x. induction l as [|b l IH]; intros x; [done|].
  simpl fold_left. rewrite <- IH. unfold join_colon. simpl map.
  change (String.concat ":" (x :: f b :: map f l))
    with (x +:+ ":" +:+ String.concat ":" (f b :: map f l)).
  destruct (map f l) as [|g gs]; [done|].
  change (String.concat ":" ((x +:+ ":" +:+ f b) :: g :: gs))
    with ((x +:+ ":" +:+ f b) +:+ ":" +:+ String.concat ":" (g :: gs)).
  change (String.concat ":" (f b :: g :: gs))
    with (f b +:+ ":" +:+ String.concat ":" (g :: gs)).
  by rewrite !append_assoc.
Qed.

(** The textual rendering of a hardware address: its octets as two lowercase
    hex digits each, joined by colons. *)
Lemma HardwareAddr_String_join (a : HardwareAddr) :
  HardwareAddr_String a = join_colon (map (λ b, hex_octet (u8 b)) a).
Proof.
  destruct a as [|b a]; [done|].
  unfold HardwareAddr_String. rewrite decide_False by done.
  simpl map. rewrite join_colon_map, <- (HardwareAddr_String_loop a 0).
  reflexivity.
Qed.

(** ** peername.go *)

Lemma PeerNameFromMACAddr_eq (a : string) :
  PeerNameFromMACAddr a = mesh.PeerNameFromString a.
Proof. unfold PeerNameFromMACAddr. by destruct (mesh.PeerNameFromString a). Qed.

Lemma UnStringPeerName_eq (s : string) :
  UnStringPeerName s = mesh.PeerNameFromString s.
Proof. unfold UnStringPeerName. by destruct (mesh.PeerNameFromString s). Qed.

(** C1. [PeerNameFromHardwareAddr] dispatches on the length of the address:
    eight bytes are read as a big-endian 64-bit integer, without error; fewer
    than eight bytes go through [PeerNameFromMACAddr], the hex-colon parser,
    applied to the textual rendering of the address; more than eight bytes go
    through [PeerNameFromStringHash] of that rendering, without error.  The
    rendering is the octets of the address in lowercase hex, joined by
    colons. *)
Theorem PeerNameFromHardwareAddr_by_length (E : Platform) (h : HardwareAddr) :
  (length h = 8%nat →
     PeerNameFromHardwareAddr E h = (big_endian_value h, None)
     ∧ 0 ≤ big_endian_value h < 2 ^ 64)
  ∧ ((length h < 8)%nat →
     PeerNameFromHardwareAddr E h
     = PeerNameFromMACAddr (HardwareAddr_String h))
  ∧ ((length h > 8)%nat →
     PeerNameFromHardwareAddr E h
     = (PeerNameFromStringHash E (HardwareAddr_String h), None))
  ∧ HardwareAddr_String h = join_colon (map (λ b, hex_octet (u8 b)) h).
Proof.
  unfold PeerNameFromHardwareAddr. split; [|split; [|split]].
  - intros Hlen. rewrite decide_True by done.
    by destruct (BigEndian_Uint64_value h Hlen) as [-> ?].
  - intros Hlt. rewrite decide_False by lia. by rewrite decide_True.
  - intros Hgt. rewrite decide_False by lia. by rewrite decide_False by lia.
  - apply HardwareAddr_String_join.
Qed.

Lemma PeerNameFromHardwareAddr_by_length_witness :
  (length [x00; x11; x22; x33; x44; x55; x66; x77] = 8%nat
   ∧ PeerNameFromHardwareAddr toy [x00; x11; x22; x33; x44; x55; x66; x77]
     = (4822678189205111, None))
  ∧ ((length [x00; x11; x22; x33; x44; x55] < 8)%nat
     ∧ PeerNameFromHardwareAddr toy [x00; x11; x22; x33; x44; x55]
       = PeerNameFromMACAddr "00:11:22:33:44:55")
  ∧ ((length (replicate 9 x01) > 8)%nat
     ∧ PeerNameFromHardwareAddr toy (replicate 9 x01)
       = (PeerNameFromStringHash toy "01:01:01:01:01:01:01:01:01", None)).
Proof.
  pose proof (PeerNameFromHardwareAddr_by_length toy
                [x00; x11; x22; x33; x44; x55; x66; x77]) as (H8 & _ & _ & _).
  pose proof (PeerNameFromHardwareAddr_by_length toy
                [x00; x11; x22; x33; x44; x55]) as (_ & H6 & _ & _).
  pose proof (PeerNameFromHardwareAddr_by_length toy
                (replicate 9 x01)) as (_ & _ & H9 & _).
  split; [split; [reflexivity|exact (proj1 (H8 eq_refl))]|].
  split; [split; [simpl; lia|apply H6; simpl; lia]|].
  split; [simpl; lia|apply H9; simpl; lia].
Defined.

(** ** The payload container *)

Lemma copy_into_make (g : list byte) : copy (make_bytes (length g)) g = g.
Proof.
  unfold copy, make_bytes.
  rewrite length_replicate, firstn_all, drop_replicate, Nat.sub_diag.
  apply app_nil_r.
Qed.

Lemma flatten_fold (chunks : list (list byte)) (r : list byte) :
  fold_left (λ r bs, r ++ bs) chunks r = r ++ List.concat chunks.
Proof.
  revert r. induction chunks as [|bs chunks IH]; intros r; simpl.
  - by rewrite app_nil_r.
  - by rewrite IH, app_assoc.
Qed.

Lemma gd_Merge_flat {T} `{GossipData T} (g : gd) (o : T) :
  gd_Merge g o = g ++ List.concat (Encode o).
Proof. unfold gd_Merge. by rewrite copy_into_make, flatten_fold. Qed.

(** C2. For containers [a] and [b], [a.Merge(b).Encode()] is one chunk: the
    bytes of [a] followed, in order, by the concatenation of the chunks of
    [b.Encode()]; and [Encode()] of a container is the one chunk made of its
    bytes.  The first part holds for any mergeable value in place of [b]. *)
Theorem Merge_then_Encode (a b : gd) :
  Encode (gd_Merge a b) = [a ++ List.concat (Encode b)]
  ∧ Encode a = [a]
  ∧ Encode b = [b]
  ∧ (∀ T (G : GossipData T) (o : T),
       Encode (gd_Merge a o) = [a ++ List.concat (Encode o)]).
Proof.
  repeat split.
  - by rewrite gd_Merge_flat.
  - intros T G o. by rewrite gd_Merge_flat.
Qed.

(** ** Identity strings *)

Lemma lower_hex_digit (c : ascii) :
  lower_hex c = true →
  ∃ d, mesh.hex_value c = Some d ∧ 0 ≤ d < 16 ∧ hexDigit_at d = c.
Proof.
  destruct c as [[] [] [] [] [] [] [] []]; intros H; vm_compute in H;
    try discriminate H;
    (eexists; split; [vm_compute; reflexivity|split; [lia|reflexivity]]).
Qed.

Lemma octet_digits (hi lo : Z) :
  0 ≤ hi < 16 → 0 ≤ lo < 16 →
  (16 * hi + lo) ≫ 4 = hi ∧ Z.land (16 * hi + lo) 15 = lo.
Proof.
  intros Hhi Hlo.
  rewrite Z.shiftr_div_pow2 by lia.
  change 15 with (Z.ones 4). rewrite Z.land_ones by lia.
  change (2 ^ 4) with 16.
  split; [symmetry; apply Z.div_unique with lo; lia|].
  symmetry; apply Z.mod_unique with hi; lia.
Qed.

Lemma lower_octet_parse (g : string) :
  lower_octet g = true →
  ∃ v, mesh.parse_octet g = Some v ∧ 0 ≤ v < 256 ∧ hex_octet v = pad_octet g.
Proof.
  destruct g as [|c [|d [|? ?]]]; simpl; try discriminate.
  - intros (v & Hv & Hr & Hc)%lower_hex_digit.
    exists v. split; [done|]. split; [lia|].
    destruct (octet_digits 0 v) as [Hhi Hlo]; [lia|lia|].
    rewrite Z.mul_0_r, Z.add_0_l in Hhi, Hlo.
    unfold hex_octet. by rewrite Hhi, Hlo, Hc.
  - intros [(hi & Hhi & Hrhi & Hchi)%lower_hex_digit
            (lo & Hlo & Hrlo & Hclo)%lower_hex_digit]%andb_true_iff.
    exists (16 * hi + lo). rewrite Hhi, Hlo. split; [done|]. split; [lia|].
    destruct (octet_digits hi lo) as [Hh Hl]; [lia|lia|].
    unfold hex_octet. by rewrite Hh, Hl, Hchi, Hclo.
Qed.

Lemma lower_octet_nonempty (g : string) :
  lower_octet g = true → mesh.nonempty g = true.
Proof. by destruct g. Qed.

Lemma lor_shl8 (acc o : Z) :
  0 ≤ acc < 2 ^ 56 → 0 ≤ o < 256 → Z.lor (shl64 acc 8) o = acc * 256 + o.
Proof.
  intros Hacc Ho.
  assert (2 ^ 64 = 256 * 2 ^ 56) by done.
  rewrite shl64_small by (change (2 ^ 8) with 256; lia).
  rewrite Z.lor_comm, <- (Z.shiftl_mul_pow2 acc 8) by lia.
  rewrite lor_shiftl_add by (change (2 ^ 8) with 256; lia).
  change (2 ^ 8) with 256. lia.
Qed.

(** The six octets of an identity assembled most significant first. *)
Lemma octets_of_identity (v0 v1 v2 v3 v4 v5 : Z) :
  0 ≤ v0 < 256 → 0 ≤ v1 < 256 → 0 ≤ v2 < 256 →
  0 ≤ v3 < 256 → 0 ≤ v4 < 256 → 0 ≤ v5 < 256 →
  let n := ((((v0 * 256 + v1) * 256 + v2) * 256 + v3) * 256 + v4) * 256 + v5 in
  map (λ i, u8 (byte_of_Z (n ≫ (8 * i)))) [5; 4; 3; 2; 1; 0]
  = [v0; v1; v2; v3; v4; v5].
Proof.
  intros H0 H1 H2 H3 H4 H5 n. simpl.
  rewrite !u8_byte_of_Z, !Z.shiftr_div_pow2 by lia.
  change (2 ^ 40) with 1099511627776. change (2 ^ 32) with 4294967296.
  change (2 ^ 24) with 16777216. change (2 ^ 16) with 65536.
  change (2 ^ 8) with 256. change (2 ^ 0) with 1.
  repeat f_equal; subst n; Z.div_mod_to_equations; lia.
Qed.

Lemma join_split_colon (x : string) : join_colon (mesh.split_colon x) = x.
Proof.
  unfold join_colon. induction x as [|c rest IH]; [done|]. simpl.
  destruct (mesh.split_colon rest) as [|g gs] eqn:Hs.
  - destruct rest; simpl in Hs; [done|].
    repeat case_match; done.
  - case_decide as Hc.
    + subst c.
      change (String.concat ":" ("" :: g :: gs))
        with (String ":" (String.concat ":" (g :: gs))).
      by rewrite IH.
    + destruct gs as [|g' gs].
      * change (String c g = String c rest). by rewrite <- IH.
      * change (String c (String.concat ":" (g :: g' :: gs)) = String c rest).
        by rewrite IH.
Qed.

Lemma pad_octet_two_digits (g : string) :
  String.length g = 2%nat → pad_octet g = g.
Proof. by destruct g as [|? [|? ?]]. Qed.

(** The parser of identity strings on a few inputs: groups in full, a run of
    zero groups elided in front, in the middle and at the end, and the three
    kinds of malformed input. *)
Example parse_in_full :
  mesh.PeerNameFromString "00:11:22:33:44:55" = (73588229205, None).
Proof. reflexivity. Qed.

Example parse_elided_in_front :
  mesh.PeerNameFromString "::1" = (1, None).
Proof. reflexivity. Qed.

Example parse_elided_in_the_middle :
  mesh.PeerNameFromString "1::2:3" = (1099511628291, None).
Proof. reflexivity. Qed.

Example parse_elided_at_the_end :
  mesh.PeerNameFromString "1:2::" = (1108101562368, None).
Proof. reflexivity. Qed.

Example parse_wrong_digit_count :
  mesh.PeerNameFromString "001:2:3:4:5:6"
  = (0, Some "invalid peer name format").
Proof. reflexivity. Qed.

Example parse_too_many_groups :
  mesh.PeerNameFromString "1:2:3:4:5:6:7"
  = (0, Some "invalid peer name format").
Proof. reflexivity. Qed.

Example parse_non_hex :
  mesh.PeerNameFromString "0g:2:3:4:5:6"
  = (0, Some "invalid peer name format").
Proof. reflexivity. Qed.

Example String_of_identity :
  PeerName_String 73588229205 = "00:11:22:33:44:55".
Proof. reflexivity. Qed.

Example canonicalForm_pads :
  canonicalForm "0:1b:2:33:44:5f" = "00:1b:02:33:44:5f".
Proof. reflexivity. Qed.

(** C6. For a string [x] of exactly six colon-separated lowercase hex octets,
    [PeerNameFromMACAddr] (and [UnStringPeerName], the same parser) succeeds,
    and [String()] of the result is the canonical form of [x]: [String] is a
    left inverse of the parser on such strings, and gives back [x] itself
    when every octet of [x] is written with two digits. *)
Theorem String_left_inverse_of_parse (x : string) :
  wellformed6 x = true →
  ∃ pn, PeerNameFromMACAddr x = (pn, None)
        ∧ UnStringPeerName x = (pn, None)
        ∧ PeerName_String pn = canonicalForm x
        ∧ (Forall (λ g, String.length g = 2%nat) (mesh.split_colon x) →
           PeerName_String pn = x).
Proof.
  unfold wellformed6. intros [Hlen Hall]%andb_true_iff.
  apply bool_decide_eq_true in Hlen.
  pose proof (join_split_colon x) as Hjoin.
  assert (Hcanon : Forall (λ g, String.length g = 2%nat) (mesh.split_colon x) →
                   canonicalForm x = x).
  { intros Htwo. unfold canonicalForm. rewrite <- Hjoin at 2. f_equal.
    clear -Htwo. induction Htwo as [|g gs Hg _ IH]; [done|]. simpl.
    by rewrite pad_octet_two_digits, IH. }
  unfold canonicalForm in *.
  destruct (mesh.split_colon x) as [|g0 [|g1 [|g2 [|g3 [|g4 [|g5 [|? ?]]]]]]]
    eqn:Hsplit; try discriminate Hlen.
  clear Hlen. simpl in Hall.
  repeat match type of Hall with
  | (_ && _) = true => apply andb_true_iff in Hall as [?Hg Hall]
  end.
  clear Hall.
  repeat match goal with
  | H : lower_octet ?g = true |- _ =>
      let v := fresh "v" in
      let Hne := fresh "Hne" in
      pose proof (lower_octet_nonempty g H) as Hne;
      apply lower_octet_parse in H as (v & ?Hparse & ?Hrange & ?Hhex)
  end.
  rewrite PeerNameFromMACAddr_eq, UnStringPeerName_eq.
  unfold mesh.PeerNameFromString. rewrite Hsplit.
  assert (Hsix : mesh.six_groups [g0; g1; g2; g3; g4; g5]
                 = Some [g0; g1; g2; g3; g4; g5]).
  { unfold mesh.six_groups. simpl.
    by rewrite Hne, Hne0, Hne1, Hne2, Hne3, Hne4. }
  rewrite Hsix. simpl.
  rewrite Hparse, Hparse0, Hparse1, Hparse2, Hparse3, Hparse4. simpl.
  eexists. split; [reflexivity|]. split; [reflexivity|].
  assert (Hstr : PeerName_String
            (Z.lor (shl64 (Z.lor (shl64 (Z.lor (shl64 (Z.lor (shl64
               (Z.lor (shl64 (Z.lor (shl64 0 8) v4) 8) v3) 8) v2) 8) v1) 8)
               v0) 8) v)
          = join_colon (map pad_octet [g0; g1; g2; g3; g4; g5])).
  { repeat match goal with
    | |- context [Z.lor (shl64 ?a 8) ?o] =>
        rewrite (lor_shl8 a o)
          by (try change (2 ^ 56) with 72057594037927936; lia)
    end.
    unfold PeerName_String, mesh.PeerName_String.
    rewrite Z.mul_0_l, Z.add_0_l.
    pose proof (octets_of_identity v4 v3 v2 v1 v0 v) as Hoct.
    simpl in Hoct. simpl map. rewrite HardwareAddr_String_join. simpl map.
    injection (Hoct Hrange4 Hrange3 Hrange2 Hrange1 Hrange0 Hrange)
      as -> -> -> -> -> ->.
    by rewrite Hhex, Hhex0, Hhex1, Hhex2, Hhex3, Hhex4. }
  split; [exact Hstr|].
  intros Htwo. by rewrite Hstr, Hcanon.
Qed.

(** ** Running the primitives *)

Section Runs.
Context {E : Platform}.
Implicit Types (s : State E) (p : ptr).

Lemma bind_Ok {A B} (m : M E A) (k : A → M E B) s a s1 :
  m s = Ok a s1 → bind m k s = k a s1.
Proof. unfold bind. by intros ->. Qed.

Lemma transport_run {A} (c : Call E) (op : World E → A * World E) s :
  transport c op s
  = Ok (op (world (mem s))).1
       {| mem := {| names := names (mem s); peers := peers (mem s);
                    world := (op (world (mem s))).2 |};
          trace := trace s ++ [c] |}.
Proof.
  unfold transport, bind, record_call, get_mem, put_mem, ret. simpl.
  by destruct (op (world (mem s))).
Qed.

Lemma load_Peer_run p s v :
  peers (mem s) !! p = Some v → load_Peer p s = Ok v s.
Proof. unfold load_Peer, bind, get_mem, ret. by intros ->. Qed.

Lemma update_Peer_run p (f : Peer.t E → Peer.t E) s v :
  peers (mem s) !! p = Some v →
  update_Peer p f s
  = Ok () {| mem := {| names := names (mem s);
                       peers := <[p := f v]> (peers (mem s));
                       world := world (mem s) |};
             trace := trace s |}.
Proof.
  intros Hp. unfold update_Peer.
  rewrite (bind_Ok _ _ _ _ _ (load_Peer_run _ _ _ Hp)). done.
Qed.

(** The loop of [Connect] that fills [ips]. *)
Lemma ips_loop {A} (f : A → string) (addrs : list A) (filled : list string) :
  fold_left (λ ips '(i, a), <[i := f a]> ips)
    (imap (λ i, pair (length filled + i)%nat) addrs)
    (filled ++ replicate (length addrs) "")
  = filled ++ map f addrs.
Proof.
  revert filled. induction addrs as [|a addrs IH]; intros filled; [done|].
  simpl. rewrite insert_app_r. simpl.
  rewrite (cons_middle (f a)), app_assoc.
  specialize (IH (filled ++ [f a])).
  rewrite length_app, <- (app_assoc filled [f a] (map f addrs)) in IH.
  simpl in IH.
  erewrite imap_ext; [exact IH|].
  intros i x _. simpl. f_equal. lia.
Qed.

Lemma ips_filled {A} (f : A → string) (addrs : list A) :
  fold_left (λ ips '(i, a), <[i := f a]> ips)
    (imap pair addrs) (replicate (length addrs) "")
  = map f addrs.
Proof. exact (ips_loop f addrs []). Qed.

Lemma Connect_run p (addrs : list (TCPAddr E)) s pv router :
  peers (mem s) !! p = Some pv →
  Peer.Router pv = Some router →
  let ips := map (TCPAddr_String E) addrs in
  let r := InitiateConnections E router ips false (world (mem s)) in
  Connect p (Some addrs) s
  = Ok r.1 {| mem := {| names := names (mem s); peers := peers (mem s);
                        world := r.2 |};
              trace := trace s ++ [CallInitiateConnections router ips false]
           |}.
Proof.
  intros Hp Hr ips r. unfold Connect.
  rewrite ips_filled.
  rewrite (bind_Ok _ _ _ _ _ (load_Peer_run _ _ _ Hp)), Hr.
  unfold deref. rewrite (bind_Ok _ _ s router s eq_refl).
  by rewrite transport_run.
Qed.

End Runs.
Section NewRuns.
Context {E : Platform}.
Implicit Types (s : State E) (p : ptr).

Lemma new_PeerName_run (v : PeerName) s :
  new_PeerName v s
  = Ok (length (names (mem s)))
       {| mem := {| names := names (mem s) ++ [v]; peers := peers (mem s);
                    world := world (mem s) |};
          trace := trace s |}.
Proof. reflexivity. Qed.

Lemma new_Peer_run (v : Peer.t E) s :
  new_Peer v s
  = Ok (length (peers (mem s)))
       {| mem := {| names := names (mem s); peers := peers (mem s) ++ [v];
                    world := world (mem s) |};
          trace := trace s |}.
Proof. reflexivity. Qed.

Lemma load_PeerName_run (a : ptr) s v :
  names (mem s) !! a = Some v → load_PeerName (Some a) s = Ok v s.
Proof. unfold load_PeerName, bind, get_mem, ret. simpl. by intros ->. Qed.

Lemma insert_last {A} (l : list A) (x y : A) :
  <[length l := y]> (l ++ [x]) = l ++ [y].
Proof.
  rewrite <- (Nat.add_0_r (length l)) at 1. by rewrite insert_app_r.
Qed.

(** An assignment to a field of the Peer allocated last. *)
Lemma update_Peer_last (f : Peer.t E → Peer.t E) ns ps (v : Peer.t E) w tr :
  update_Peer (length ps) f
    {| mem := {| names := ns; peers := ps ++ [v]; world := w |};
       trace := tr |}
  = Ok () {| mem := {| names := ns; peers := ps ++ [f v]; world := w |};
             trace := tr |}.
Proof.
  erewrite update_Peer_run by by apply list_lookup_middle.
  simpl. by rewrite insert_last.
Qed.


Lemma Start_step ns ps (v : Peer.t E) w tr r :
  Peer.Router v = Some r →
  bind (load_Peer (length ps))
    (λ pv, bind (deref (Peer.Router pv))
             (λ r, transport (CallStart r) (λ w, ((), Start E r w))))
    {| mem := {| names := ns; peers := ps ++ [v]; world := w |};
       trace := tr |}
  = Ok () {| mem := {| names := ns; peers := ps ++ [v];
                       world := Start E r w |};
             trace := tr ++ [CallStart r] |}.
Proof.
  intros Hr.
  erewrite bind_Ok by by apply load_Peer_run, list_lookup_middle.
  rewrite Hr. unfold deref.
  erewrite bind_Ok by reflexivity.
  by rewrite transport_run.
Qed.

Lemma New_run (c : Config.t E) (l : Logger E) s :
  Config.NickName c ≠ "" →
  valid_Name s c →
  let m := mem s in
  let pn := PeerNameFromStringHash E (Config.NickName c) in
  let names' :=
    match Config.Name c with
    | None => names m ++ [pn]
    | Some _ => names m
    end in
  let name :=
    match Config.Name c with
    | None => pn
    | Some a => default 0 (names m !! a)
    end in
  let mc :=
    {| mesh.Host := Config.Address c;
       mesh.Port := Config.Port c;
       mesh.ProtocolMinVersion := PROTOVERSION;
       mesh.Password := Config.Key c;
       mesh.ConnLimit := Z.max 0 (Config.ConnLimit c);
       mesh.PeerDiscovery := Config.AutoConnect c;
       mesh.TrustedSubnets := [] |} in
  let peer := length (peers m) in
  let r1 := NewRouter E mc name (Config.NickName c) l (world m) in
  let rx := {| receiver.p := peer |} in
  let r2 := NewGossip E r1.1 "defaultchannel" rx r1.2 in
  let listening := bool_decide (Config.Address c ≠ "") in
  let pv :=
    {| Peer.OnMessage := Config.OnMessage c;
       Peer.OnBroadcast := Config.OnBroadcast c;
       Peer.TX := Some r2.1;
       Peer.RX := Some rx;
       Peer.Router := Some r1.1 |} in
  let s3 :=
    {| mem := {| names := names'; peers := peers m ++ [pv];
                 world := if listening then Start E r1.1 r2.2 else r2.2 |};
       trace := trace s
                ++ [CallNewRouter mc name (Config.NickName c) l;
                    CallNewGossip r1.1 "defaultchannel" rx]
                ++ (if listening then [CallStart r1.1] else []) |} in
  New c l s
  = match Connect peer (Config.InitialPeers c) s3 with
    | Ok errs s' => Ok (Some peer, errs, None) s'
    | Panic reason => Panic reason
    end.
Proof.
  intros Hnick Hvalid. cbv zeta.
  unfold New. rewrite decide_False by (intros Heq; by apply Hnick).
  unfold valid_Name in Hvalid.
  destruct s as [[ns ps w] tr]. cbn [mem names peers world trace] in *.
  set (pn := PeerNameFromStringHash E (Config.NickName c)).
  assert (Hfirst : ∃ c' ns' name,
    (match Config.Name c with
     | Some _ => ret c
     | None => bind (new_PeerName pn)
                 (λ a, ret (Config.set_Name (Some a) c))
     end) {| mem := {| names := ns; peers := ps; world := w |};
             trace := tr |}
    = Ok c' {| mem := {| names := ns'; peers := ps; world := w |};
               trace := tr |}
    ∧ ns' = match Config.Name c with
            | None => ns ++ [pn]
            | Some _ => ns
            end
    ∧ name = match Config.Name c with
             | None => pn
             | Some a => default 0 (ns !! a)
             end
    ∧ (∃ a, Config.Name c' = Some a ∧ ns' !! a = Some name)
    ∧ Config.Address c' = Config.Address c
    ∧ Config.Port c' = Config.Port c
    ∧ Config.Key c' = Config.Key c
    ∧ Config.AutoConnect c' = Config.AutoConnect c
    ∧ Config.ConnLimit c' = Config.ConnLimit c
    ∧ Config.NickName c' = Config.NickName c
    ∧ Config.InitialPeers c' = Config.InitialPeers c
    ∧ Config.OnMessage c' = Config.OnMessage c
    ∧ Config.OnBroadcast c' = Config.OnBroadcast c).
  { destruct (Config.Name c) as [a|] eqn:Hname.
    - destruct Hvalid as [v Hv].
      exists c, ns, v. repeat split; eauto.
      transitivity (default 0 (Some v)); [done|]. f_equal. symmetry. exact Hv.
    - exists (Config.set_Name (Some (length ns)) c), (ns ++ [pn]), pn.
      repeat split. exists (length ns). split; [done|].
      by apply list_lookup_middle. }
  destruct Hfirst as (c' & ns' & name & Hrun & <- & <- & (a & Ha & Hname)
                      & HAddress & HPort & HKey & HAuto & HLimit & HNick
                      & HPeers & HOnM & HOnB).
  rewrite (bind_Ok _ _ _ _ _ Hrun). cbv beta.
  set (c'' := if 0 >? Config.ConnLimit c'
              then Config.set_ConnLimit 0 c' else c').
  assert (Config.Name c'' = Some a
          ∧ Config.Address c'' = Config.Address c
          ∧ Config.Port c'' = Config.Port c
          ∧ Config.Key c'' = Config.Key c
          ∧ Config.AutoConnect c'' = Config.AutoConnect c
          ∧ Config.ConnLimit c'' = Z.max 0 (Config.ConnLimit c)
          ∧ Config.NickName c'' = Config.NickName c
          ∧ Config.InitialPeers c'' = Config.InitialPeers c
          ∧ Config.OnMessage c'' = Config.OnMessage c
          ∧ Config.OnBroadcast c'' = Config.OnBroadcast c)
    as (-> & -> & -> & -> & -> & -> & -> & -> & -> & ->).
  { subst c''. rewrite <- HLimit.
    destruct (Z.gtb_spec 0 (Config.ConnLimit c')); simpl;
      repeat split; try done; lia. }
  clear c'' c' Hrun Ha HAddress HPort HKey HAuto HLimit HNick HPeers
    HOnM HOnB.
  rewrite (bind_Ok _ _ _ _ _ (new_Peer_run _ _)).
  cbn [mem names peers world trace].
  erewrite bind_Ok by (apply load_PeerName_run; exact Hname).
  rewrite (bind_Ok _ _ _ _ _ (transport_run _ _ _)).
  cbn [mem names peers world trace].
  do 3 rewrite (bind_Ok _ _ _ _ _ (update_Peer_last _ _ _ _ _ _)).
  rewrite (bind_Ok _ _ _ _ _ (transport_run _ _ _)).
  cbn [mem names peers world trace].
  do 2 rewrite (bind_Ok _ _ _ _ _ (update_Peer_last _ _ _ _ _ _)).
  cbn [Peer.set_Router Peer.set_OnMessage Peer.set_OnBroadcast Peer.set_RX
         Peer.set_TX Peer.zero Peer.OnMessage Peer.OnBroadcast Peer.TX
         Peer.RX Peer.Router].
  destruct (decide ("" ≠ Config.Address c)) as [Haddr|Haddr].
  - rewrite bool_decide_eq_true_2 by done.
    erewrite bind_Ok by (by apply Start_step).
    rewrite <- !app_assoc. reflexivity.
  - rewrite bool_decide_eq_false_2 by (intros ?; by apply Haddr).
    erewrite bind_Ok by reflexivity.
    rewrite app_nil_r, <- !app_assoc. reflexivity.
Qed.

(** What [Connect] does on a Peer that has a router. *)
Lemma Connect_outcome p (addrs : slice (TCPAddr E)) s pv router :
  peers (mem s) !! p = Some pv →
  Peer.Router pv = Some router →
  ∃ errs s',
    Connect p addrs s = Ok errs s'
    ∧ names (mem s') = names (mem s)
    ∧ peers (mem s') = peers (mem s)
    ∧ match addrs with
      | None => errs = None ∧ s' = s
      | Some addrs =>
          let ips := map (TCPAddr_String E) addrs in
          let r := InitiateConnections E router ips false (world (mem s)) in
          errs = r.1 ∧ world (mem s') = r.2
          ∧ trace s' = trace s ++ [CallInitiateConnections router ips false]
      end.
Proof.
  intros Hp Hr. destruct addrs as [addrs|].
  - rewrite (Connect_run p addrs s pv router Hp Hr).
    eexists _, _. split; [reflexivity|]. by repeat split.
  - exists None, s. by repeat split.
Qed.

(** [New] with a nickname: the Peer it builds, the state in which it calls
    [Connect], and the calls it has made by then. *)
Lemma New_outcome (c : Config.t E) (l : Logger E) s :
  Config.NickName c ≠ "" →
  valid_Name s c →
  ∃ name mc router tx errs s3 s',
    let peer := length (peers (mem s)) in
    let rx := {| receiver.p := peer |} in
    let pv :=
      {| Peer.OnMessage := Config.OnMessage c;
         Peer.OnBroadcast := Config.OnBroadcast c;
         Peer.TX := Some tx;
         Peer.RX := Some rx;
         Peer.Router := Some router |} in
    New c l s = Ok (Some peer, errs, None) s'
    ∧ Connect peer (Config.InitialPeers c) s3 = Ok errs s'
    ∧ match Config.Name c with
      | None => name = PeerNameFromStringHash E (Config.NickName c)
                ∧ names (mem s') = names (mem s) ++ [name]
      | Some a => names (mem s) !! a = Some name
                  ∧ names (mem s') = names (mem s)
      end
    ∧ mesh.ConnLimit mc = Z.max 0 (Config.ConnLimit c)
    ∧ router = (NewRouter E mc name (Config.NickName c) l (world (mem s))).1
    ∧ peers (mem s3) = peers (mem s) ++ [pv]
    ∧ peers (mem s') = peers (mem s) ++ [pv]
    ∧ trace s3 = trace s
                 ++ [CallNewRouter mc name (Config.NickName c) l;
                     CallNewGossip router "defaultchannel" rx]
                 ++ (if bool_decide (Config.Address c ≠ "")
                     then [CallStart router] else [])
    ∧ trace s' = trace s3
                 ++ match Config.InitialPeers c with
                    | None => []
                    | Some addrs =>
                        [CallInitiateConnections router
                           (map (TCPAddr_String E) addrs) false]
                    end.
Proof.
  intros Hnick Hvalid.
  pose proof (New_run c l s Hnick Hvalid) as Hrun. cbv zeta in Hrun.
  match type of Hrun with
  | context [CallNewRouter ?m ?n _ _] =>
      set (mc := m) in *; set (name := n) in *
  end.
  set (r1 := NewRouter E mc name (Config.NickName c) l (world (mem s))) in *.
  set (r2 := NewGossip E r1.1 "defaultchannel"
               {| receiver.p := length (peers (mem s)) |} r1.2) in *.
  match type of Hrun with
  | context [Connect _ _ ?st] => set (s3 := st) in *
  end.
  destruct (Connect_outcome (length (peers (mem s))) (Config.InitialPeers c)
              s3 _ r1.1 (list_lookup_middle _ _ _ _ eq_refl) eq_refl)
    as (errs & s' & HC & Hnames & Hpeers & Hrest).
  rewrite HC in Hrun.
  exists name, mc, r1.1, r2.1, errs, s3, s'. cbv zeta.
  split; [exact Hrun|]. split; [exact HC|].
  split.
  { rewrite Hnames. subst name s3. simpl.
    unfold valid_Name in Hvalid.
    destruct (Config.Name c) as [a|]; [|done].
    destruct Hvalid as [v Hv]. split; [|done].
    transitivity (Some (default 0 (Some v))); [done|].
    do 2 f_equal. symmetry. exact Hv. }
  split; [done|]. split; [done|]. split; [done|].
  split; [by rewrite Hpeers|]. split; [done|].
  destruct (Config.InitialPeers c) as [addrs|].
  - by destruct Hrest as (_ & _ & ->).
  - destruct Hrest as [_ ->]. by rewrite app_nil_r.
Qed.

End NewRuns.

(** ** Construction *)

Section Construction.
Context {E : Platform}.
Implicit Types (s : State E) (p : ptr) (c : Config.t E).

Lemma New_without_nickname c (l : Logger E) s :
  Config.NickName c = "" → New c l s = Ok (None, None, Some "no nickname") s.
Proof. intros Hnick. unfold New. by rewrite decide_True. Qed.

Lemma PeerNameFromStringHash_value (nick : string) :
  let h := sha512_Sum512 E (list_byte_of_string nick) in
  PeerNameFromStringHash E nick = little_endian_value (take 8 h)
  ∧ 0 ≤ PeerNameFromStringHash E nick < 2 ^ 64.
Proof.
  intros h. unfold PeerNameFromStringHash. fold h.
  assert (Hlen : length (take 8 h) = 8%nat).
  { rewrite length_take. unfold h. rewrite sha512_Size. done. }
  destruct (LittleEndian_Uint64_value (take 8 h) Hlen) as [-> ?]. done.
Qed.



End Construction.

(** ** Connecting and looking up *)

Section Operations.
Context {E : Platform}.
Implicit Types (s : State E) (p : ptr).

(** C8, as the code has it.  With a nil address list [Connect] is a no-op
    that returns a nil error list, for every Peer.  With an empty list that
    is not nil, [Connect] on a Peer that has a router makes one call
    [InitiateConnections] with no addresses and [replace] false, changes
    nothing else, and returns what that call returns: no errors, whenever
    the transport reports at most one error per address. *)
Theorem Connect_nil_or_empty p s :
  Connect p None s = Ok None s
  ∧ (∀ pv router,
       peers (mem s) !! p = Some pv →
       Peer.Router pv = Some router →
       let r := InitiateConnections E router [] false (world (mem s)) in
       Connect p (Some []) s
       = Ok r.1 {| mem := {| names := names (mem s);
                             peers := peers (mem s); world := r.2 |};
                   trace := trace s
                            ++ [CallInitiateConnections router [] false] |}
       ∧ ((∀ router' ips replace w,
             slice_len (InitiateConnections E router' ips replace w).1
             ≤ length ips)%nat →
          slice_len r.1 = 0%nat)).
Proof.
  split; [done|].
  intros pv router Hp Hr r. split.
  - exact (Connect_run p [] s pv router Hp Hr).
  - intros Hper. specialize (Hper router [] false (world (mem s))).
    simpl in Hper. fold r in Hper. lia.
Qed.

Lemma scan_NickName_absent (ds : list mesh.PeerDescription) nick :
  (∀ pd, pd ∈ ds → mesh.NickName pd ≠ nick) →
  scan_NickName ds nick = (0, false).
Proof.
  induction ds as [|pd ds IH]; intros Habs; [done|]. simpl.
  rewrite decide_False by (apply Habs; left).
  apply IH. intros x Hx. apply Habs. by right.
Qed.

Lemma scan_NickName_first (pre post : list mesh.PeerDescription) pd nick :
  (∀ x, x ∈ pre → mesh.NickName x ≠ nick) →
  mesh.NickName pd = nick →
  scan_NickName (pre ++ pd :: post) nick = (mesh.Name pd, true).
Proof.
  intros Hpre Hpd. induction pre as [|x pre IH]; simpl.
  - by rewrite decide_True.
  - rewrite decide_False by (apply Hpre; left).
    apply IH. intros y Hy. apply Hpre. by right.
Qed.

Lemma scan_PeerName_absent (ds : list mesh.PeerDescription) name :
  (∀ pd, pd ∈ ds → mesh.Name pd ≠ name) →
  scan_PeerName ds name = ("", false).
Proof.
  induction ds as [|pd ds IH]; intros Habs; [done|]. simpl.
  rewrite decide_False by (apply Habs; left).
  apply IH. intros x Hx. apply Habs. by right.
Qed.

Lemma scan_PeerName_first (pre post : list mesh.PeerDescription) pd name :
  (∀ x, x ∈ pre → mesh.Name x ≠ name) →
  mesh.Name pd = name →
  scan_PeerName (pre ++ pd :: post) name = (mesh.NickName pd, true).
Proof.
  intros Hpre Hpd. induction pre as [|x pre IH]; simpl.
  - by rewrite decide_True.
  - rewrite decide_False by (apply Hpre; left).
    apply IH. intros y Hy. apply Hpre. by right.
Qed.

Lemma PeerNameFromNickName_run p nick s pv router :
  peers (mem s) !! p = Some pv →
  Peer.Router pv = Some router →
  ∃ s', PeerNameFromNickName p nick s
        = Ok (scan_NickName (Descriptions E router (world (mem s))) nick) s'
        ∧ mem s' = mem s
        ∧ trace s' = trace s ++ [CallDescriptions router].
Proof.
  intros Hp Hr. unfold PeerNameFromNickName.
  rewrite (bind_Ok _ _ _ _ _ (load_Peer_run _ _ _ Hp)), Hr.
  unfold deref. erewrite bind_Ok by reflexivity.
  rewrite (bind_Ok _ _ _ _ _ (transport_run _ _ _)).
  eexists. split; [reflexivity|]. simpl. by destruct (mem s).
Qed.

Lemma NickNameFromPeerName_run p name s pv router :
  peers (mem s) !! p = Some pv →
  Peer.Router pv = Some router →
  ∃ s', NickNameFromPeerName p name s
        = Ok (scan_PeerName (Descriptions E router (world (mem s))) name) s'
        ∧ mem s' = mem s
        ∧ trace s' = trace s ++ [CallDescriptions router].
Proof.
  intros Hp Hr. unfold NickNameFromPeerName.
  rewrite (bind_Ok _ _ _ _ _ (load_Peer_run _ _ _ Hp)), Hr.
  unfold deref. erewrite bind_Ok by reflexivity.
  rewrite (bind_Ok _ _ _ _ _ (transport_run _ _ _)).
  eexists. split; [reflexivity|]. simpl. by destruct (mem s).
Qed.

(** C9. On a Peer that has a router, with [ds] the membership view the
    transport reports: a nickname that no entry of [ds] carries gives
    [(PeerName(0), false)], an identity that no entry carries gives
    [("", false)]; otherwise the first matching entry, in the order of
    [ds], is returned with [true].  A lookup leaves the memory as it is. *)
Theorem lookups_first_match_or_zero p s pv router :
  peers (mem s) !! p = Some pv →
  Peer.Router pv = Some router →
  let ds := Descriptions E router (world (mem s)) in
  (∀ nick, (∀ pd, pd ∈ ds → mesh.NickName pd ≠ nick) →
     ∃ s', PeerNameFromNickName p nick s = Ok (0, false) s'
           ∧ mem s' = mem s)
  ∧ (∀ name, (∀ pd, pd ∈ ds → mesh.Name pd ≠ name) →
       ∃ s', NickNameFromPeerName p name s = Ok ("", false) s'
             ∧ mem s' = mem s)
  ∧ (∀ nick pre pd post,
       ds = pre ++ pd :: post →
       (∀ x, x ∈ pre → mesh.NickName x ≠ nick) →
       mesh.NickName pd = nick →
       ∃ s', PeerNameFromNickName p nick s = Ok (mesh.Name pd, true) s'
             ∧ mem s' = mem s)
  ∧ (∀ name pre pd post,
       ds = pre ++ pd :: post →
       (∀ x, x ∈ pre → mesh.Name x ≠ name) →
       mesh.Name pd = name →
       ∃ s', NickNameFromPeerName p name s = Ok (mesh.NickName pd, true) s'
             ∧ mem s' = mem s).
Proof.
  intros Hp Hr ds. repeat split.
  - intros nick Habs.
    destruct (PeerNameFromNickName_run p nick s pv router Hp Hr)
      as (s' & Hrun & Hmem & _).
    exists s'. fold ds in Hrun.
    by rewrite scan_NickName_absent in Hrun.
  - intros name Habs.
    destruct (NickNameFromPeerName_run p name s pv router Hp Hr)
      as (s' & Hrun & Hmem & _).
    exists s'. fold ds in Hrun.
    by rewrite scan_PeerName_absent in Hrun.
  - intros nick pre pd post Hds Hpre Hpd.
    destruct (PeerNameFromNickName_run p nick s pv router Hp Hr)
      as (s' & Hrun & Hmem & _).
    exists s'. fold ds in Hrun.
    by rewrite Hds, scan_NickName_first in Hrun.
  - intros name pre pd post Hds Hpre Hpd.
    destruct (NickNameFromPeerName_run p name s pv router Hp Hr)
      as (s' & Hrun & Hmem & _).
    exists s'. fold ds in Hrun.
    by rewrite Hds, scan_PeerName_first in Hrun.
Qed.

End Operations.

(** ** Dispatch *)

Section Dispatch.
Context {E : Platform}.
Variable run_handler : HandlerSemantics E.
Implicit Types (s : State E) (r : receiver.t).

Lemma handle_run r (f : option Handler) src (msg : list byte) s :
  handle run_handler r f src msg s
  = match f with
    | None => Ok None s
    | Some H =>
        let out := run_handler H (receiver.p r) src msg (mem s) in
        Ok out.1 {| mem := out.2;
                    trace := trace s
                             ++ [CallHandler H (receiver.p r) src msg] |}
    end.
Proof.
  destruct f as [H|]; [|done]. simpl.
  unfold call_handler, bind, record_call, get_mem, put_mem, ret. simpl.
  by destruct (run_handler H (receiver.p r) src msg (mem s)).
Qed.

(** C5. For every inbound unicast [(src, msg)], on a receiver whose Peer
    exists: when [OnMessage] is nil, [OnGossipUnicast] returns nil, calls no
    handler and changes nothing; when a handler [H] is registered, it calls
    [H] exactly once, with the local Peer, [src] and [msg], and returns
    what [H] returns. *)
Theorem OnGossipUnicast_dispatch r src (msg : list byte) s pv :
  peers (mem s) !! receiver.p r = Some pv →
  (Peer.OnMessage pv = None →
     OnGossipUnicast run_handler r src msg s = Ok None s)
  ∧ (∀ H, Peer.OnMessage pv = Some H →
       let out := run_handler H (receiver.p r) src msg (mem s) in
       ∃ s',
         OnGossipUnicast run_handler r src msg s = Ok out.1 s'
         ∧ mem s' = out.2
         ∧ trace s' = trace s ++ [CallHandler H (receiver.p r) src msg]).
Proof.
  intros Hp. unfold OnGossipUnicast.
  rewrite (bind_Ok _ _ _ _ _ (load_Peer_run _ _ _ Hp)), handle_run.
  split.
  - by intros ->.
  - intros H ->. eexists. split; [reflexivity|]. done.
Qed.

End Dispatch.

(** ** The statements at work on the small platform *)

Lemma String_left_inverse_of_parse_witness :
  wellformed6 "00:1b:22:33:44:5f" = true
  ∧ ∃ pn, PeerNameFromMACAddr "00:1b:22:33:44:5f" = (pn, None)
          ∧ PeerName_String pn = "00:1b:22:33:44:5f".
Proof.
  split; [reflexivity|].
  destruct (String_left_inverse_of_parse "00:1b:22:33:44:5f" eq_refl)
    as (pn & Hparse & _ & Hstring & _).
  exists pn. split; [exact Hparse|exact Hstring].
Defined.



Lemma Connect_nil_or_empty_witness :
  (peers (mem toy_joined) !! 0%nat = Some toy_peer
   ∧ Peer.Router toy_peer = Some (7306357456645743973, "examplepeer")
   ∧ (∀ router' ips replace w,
        slice_len (InitiateConnections toy router' ips replace w).1
        ≤ length ips)%nat)
  ∧ Connect 0%nat None toy_joined = Ok None toy_joined
  ∧ slice_len
      (InitiateConnections toy (7306357456645743973, "examplepeer") [] false
         (world (mem toy_joined))).1 = 0%nat.
Proof.
  assert (Hp : peers (mem toy_joined) !! 0%nat = Some toy_peer)
    by reflexivity.
  assert (Hr : Peer.Router toy_peer
               = Some (7306357456645743973, "examplepeer")) by reflexivity.
  assert (Hper : ∀ router' ips replace w,
            (slice_len (InitiateConnections toy router' ips replace w).1
             ≤ length ips)%nat).
  { intros router' ips replace w. simpl.
    induction ips as [|ip ips IH]; [simpl; lia|].
    cbn. destruct (decide (ip = "down:1")); cbn in *; lia. }
  split; [by repeat split|].
  destruct (Connect_nil_or_empty 0%nat toy_joined) as [Hnil Hempty].
  split; [exact Hnil|].
  destruct (Hempty toy_peer _ Hp Hr) as [_ Hnone].
  exact (Hnone Hper).
Defined.

(** C8, as the claim has it, fails: on the Peer that [New] has built,
    [Connect] with an empty list that is not nil does call the transport, so
    the state after the call is not the state before it. *)
Lemma Connect_empty_list_reaches_transport :
  slice_len (Some [] : slice (TCPAddr toy)) = 0%nat
  ∧ (∃ s', Connect 0%nat (Some []) toy_joined = Ok (Some []) s'
           ∧ trace s'
             = trace toy_joined
               ++ [@CallInitiateConnections toy
                     (7306357456645743973, "examplepeer") [] false])
  ∧ (∀ errs, Connect 0%nat (Some []) toy_joined ≠ Ok errs toy_joined).
Proof.
  split; [reflexivity|]. split.
  - eexists. split; reflexivity.
  - intros errs Heq. vm_compute in Heq. discriminate Heq.
Qed.

(** A Peer made by hand has no router: [Connect] with an empty list that is
    not nil then dereferences a nil pointer. *)
Example Connect_empty_list_on_bare_Peer :
  Connect 0%nat (Some []) toy_bare = Panic "nil pointer dereference".
Proof. reflexivity. Qed.

Lemma lookups_first_match_or_zero_witness :
  (peers (mem toy_joined) !! 0%nat = Some toy_peer
   ∧ Peer.Router toy_peer = Some (7306357456645743973, "examplepeer"))
  ∧ (∃ s', PeerNameFromNickName 0%nat "controller" toy_joined
           = Ok (7, true) s')
  ∧ (∃ s', NickNameFromPeerName 0%nat 8 toy_joined = Ok ("", false) s').
Proof.
  assert (Hp : peers (mem toy_joined) !! 0%nat = Some toy_peer)
    by reflexivity.
  assert (Hr : Peer.Router toy_peer
               = Some (7306357456645743973, "examplepeer")) by reflexivity.
  split; [by split|].
  destruct (lookups_first_match_or_zero 0%nat toy_joined toy_peer _ Hp Hr)
    as (_ & Habsent & Hfirst & _).
  split.
  - destruct (Hfirst "controller"
                [{| mesh.Name := 7306357456645743973;
                    mesh.NickName := "examplepeer" |}]
                {| mesh.Name := 7; mesh.NickName := "controller" |}
                [{| mesh.Name := 9; mesh.NickName := "controller" |}])
      as (s' & Hrun & _); [reflexivity| |reflexivity|by exists s'].
    intros x ->%list_elem_of_singleton. discriminate.
  - destruct (Habsent 8) as (s' & Hrun & _); [|by exists s'].
    intros pd Hpd.
    change (pd ∈ [ {| mesh.Name := 7306357456645743973;
                      mesh.NickName := "examplepeer" |};
                   {| mesh.Name := 7; mesh.NickName := "controller" |};
                   {| mesh.Name := 9; mesh.NickName := "controller" |} ])
      in Hpd.
    repeat (apply elem_of_cons in Hpd as [->|Hpd]; [discriminate|]).
    destruct (not_elem_of_nil _ Hpd).
Defined.

Lemma OnGossipUnicast_dispatch_witness :
  (peers (mem toy_joined) !! receiver.p {| receiver.p := 0%nat |}
   = Some toy_peer
   ∧ Peer.OnMessage toy_peer = Some 0%nat)
  ∧ ∃ s',
      OnGossipUnicast toy_handlers {| receiver.p := 0%nat |} 5 [x68; x69]
        toy_joined
      = Ok None s'
      ∧ trace s' = trace toy_joined ++ [@CallHandler toy 0%nat 0%nat 5 [x68; x69]].
Proof.
  assert (Hp : peers (mem toy_joined) !! receiver.p {| receiver.p := 0%nat |}
               = Some toy_peer) by reflexivity.
  split; [by split|].
  destruct (OnGossipUnicast_dispatch toy_handlers
              {| receiver.p := 0%nat |} 5 [x68; x69] toy_joined toy_peer Hp)
    as [_ Hcall].
  destruct (Hcall 0%nat eq_refl) as (s' & Hrun & _ & Htrace).
  exists s'. by split.
Defined.

(** * Further properties *)

(** ** Identities and their text *)

Lemma hexDigit_at_value (d : Z) :
  0 ≤ d < 16 →
  mesh.hex_value (hexDigit_at d) = Some d ∧ hexDigit_at d ≠ ":"%char.
Proof.
  intros Hd.
  assert (d = 0 ∨ d = 1 ∨ d = 2 ∨ d = 3 ∨ d = 4 ∨ d = 5 ∨ d = 6 ∨ d = 7
          ∨ d = 8 ∨ d = 9 ∨ d = 10 ∨ d = 11 ∨ d = 12 ∨ d = 13 ∨ d = 14
          ∨ d = 15) as Hcases by lia.
  repeat (destruct Hcases as [->|Hcases]; [by split|]).
  subst d. by split.
Qed.

Lemma octet_split (v : Z) :
  0 ≤ v < 256 → 0 ≤ v ≫ 4 < 16 ∧ 0 ≤ Z.land v 15 < 16
                ∧ 16 * (v ≫ 4) + Z.land v 15 = v.
Proof.
  intros Hv. rewrite Z.shiftr_div_pow2 by lia.
  change 15 with (Z.ones 4). rewrite Z.land_ones by lia.
  change (2 ^ 4) with 16. Z.div_mod_to_equations. lia.
Qed.

(** An octet rendered and parsed again. *)
Lemma parse_hex_octet (v : Z) :
  0 ≤ v < 256 → mesh.parse_octet (hex_octet v) = Some v.
Proof.
  intros Hv. destruct (octet_split v Hv) as (Hhi & Hlo & Hsum).
  destruct (hexDigit_at_value _ Hhi) as [Hh _].
  destruct (hexDigit_at_value _ Hlo) as [Hl _].
  unfold hex_octet. simpl. rewrite Hh, Hl. simpl. by rewrite Hsum.
Qed.

Lemma hex_octet_colon_free (v : Z) : 0 ≤ v < 256 → colon_free (hex_octet v).
Proof.
  intros Hv. destruct (octet_split v Hv) as (Hhi & Hlo & _).
  destruct (hexDigit_at_value _ Hhi) as [_ Hh].
  destruct (hexDigit_at_value _ Hlo) as [_ Hl].
  by repeat split.
Qed.

Lemma split_colon_nonempty (x : string) : mesh.split_colon x ≠ [].
Proof.
  destruct x as [|c x]; [done|]. simpl.
  case_decide; [done|]. by destruct (mesh.split_colon x).
Qed.

Lemma split_colon_free (g : string) : colon_free g → mesh.split_colon g = [g].
Proof.
  induction g as [|c g IH]; [done|]. intros [Hc Hg]. simpl.
  rewrite decide_False by done. by rewrite IH.
Qed.

Lemma split_colon_group (g rest : string) :
  colon_free g →
  mesh.split_colon (g +:+ ":" +:+ rest) = g :: mesh.split_colon rest.
Proof.
  induction g as [|c g IH]; intros Hg.
  - reflexivity.
  - destruct Hg as [Hc Hg].
    change (String c g +:+ ":" +:+ rest) with (String c (g +:+ ":" +:+ rest)).
    simpl. rewrite decide_False by done. by rewrite IH.
Qed.

(** Splitting undoes joining, for groups without colons. *)
Lemma split_join_colon (g : string) (gs : list string) :
  Forall colon_free (g :: gs) →
  mesh.split_colon (join_colon (g :: gs)) = g :: gs.
Proof.
  revert g. induction gs as [|g' gs IH]; intros g Hall.
  - apply split_colon_free. by inversion Hall.
  - inversion Hall as [|? ? Hg Hrest]; subst.
    change (join_colon (g :: g' :: gs))
      with (g +:+ ":" +:+ join_colon (g' :: gs)).
    by rewrite split_colon_group, IH.
Qed.

Lemma break_groups_all (gs : list string) :
  Forall (λ g, mesh.nonempty g = true) gs → mesh.break_groups gs = (gs, []).
Proof.
  induction 1 as [|g gs Hg _ IH]; [done|]. simpl. by rewrite Hg, IH.
Qed.

Lemma hex_octet_nonempty (v : Z) : mesh.nonempty (hex_octet v) = true.
Proof. done. Qed.

(** The groups the parser sees in a rendering of octets. *)
Lemma six_groups_of_octets (vs : list Z) :
  Forall (λ v, 0 ≤ v < 256) vs →
  mesh.six_groups (mesh.split_colon (join_colon (map hex_octet vs)))
  = if decide (length vs = 6%nat) then Some (map hex_octet vs) else None.
Proof.
  intros Hvs. destruct vs as [|v vs]; [done|].
  assert (Hfree : Forall colon_free (map hex_octet (v :: vs))).
  { apply Forall_map. eapply Forall_impl; [exact Hvs|].
    intros ?. apply hex_octet_colon_free. }
  assert (Hne : Forall (λ g, mesh.nonempty g = true)
                  (map hex_octet (v :: vs))).
  { apply Forall_map, Forall_true. intros ?. apply hex_octet_nonempty. }
  rewrite <- (length_map hex_octet (v :: vs)).
  change (map hex_octet (v :: vs)) with (hex_octet v :: map hex_octet vs)
    in *.
  rewrite split_join_colon by done.
  unfold mesh.six_groups. by rewrite break_groups_all.
Qed.

Lemma mapM_parse_hex_octets (vs : list Z) :
  Forall (λ v, 0 ≤ v < 256) vs →
  mapM mesh.parse_octet (map hex_octet vs) = Some vs.
Proof.
  intros Hvs. apply mapM_Some. induction Hvs as [|v vs Hv _ IH]; simpl.
  - constructor.
  - constructor; [by apply parse_hex_octet|done].
Qed.

(** Parsing a rendering of octets: six octets give their big-endian value,
    any other number is malformed. *)
Lemma parse_rendered_octets (vs : list Z) :
  Forall (λ v, 0 ≤ v < 256) vs →
  mesh.PeerNameFromString (join_colon (map hex_octet vs))
  = if decide (length vs = 6%nat)
    then (fold_left (λ acc o, acc * 256 + o) vs 0, None)
    else (0, Some "invalid peer name format").
Proof.
  intros Hvs. unfold mesh.PeerNameFromString.
  rewrite six_groups_of_octets by done.
  case_decide as Hlen; [|done]. simpl.
  rewrite mapM_parse_hex_octets by done.
  do 6 (destruct vs as [|? vs]; [discriminate|]).
  destruct vs; [|discriminate]. f_equal.
  repeat match goal with
  | H : Forall _ (_ :: _) |- _ => inversion H; clear H; subst
  end.
  simpl.
  repeat match goal with
  | |- context [Z.lor (shl64 ?a 8) ?o] =>
      rewrite (lor_shl8 a o)
        by (try change (2 ^ 56) with 72057594037927936; lia)
  end.
  done.
Qed.

(** The text of an identity: the six low octets, most significant first. *)
Lemma String_as_octets (n : PeerName) :
  PeerName_String n
  = join_colon
      (map hex_octet (map (λ i, (n ≫ (8 * i)) mod 256) [5; 4; 3; 2; 1; 0])).
Proof.
  unfold PeerName_String, mesh.PeerName_String.
  rewrite HardwareAddr_String_join. simpl. by rewrite !u8_byte_of_Z.
Qed.

Lemma octets_in_range (n : Z) (ixs : list Z) :
  Forall (λ v, 0 ≤ v < 256) (map (λ i, (n ≫ (8 * i)) mod 256) ixs).
Proof.
  apply Forall_map, Forall_true. intros i. apply Z.mod_pos_bound. lia.
Qed.

Lemma octets_value (n : Z) :
  fold_left (λ acc o, acc * 256 + o)
    (map (λ i, (n ≫ (8 * i)) mod 256) [5; 4; 3; 2; 1; 0]) 0
  = n mod 2 ^ 48.
Proof.
  simpl. rewrite !Z.shiftr_div_pow2 by lia.
  change (2 ^ 40) with 1099511627776. change (2 ^ 32) with 4294967296.
  change (2 ^ 24) with 16777216. change (2 ^ 16) with 65536.
  change (2 ^ 8) with 256. change (2 ^ 0) with 1.
  change (2 ^ 48) with 281474976710656.
  Z.div_mod_to_equations. lia.
Qed.

Lemma octets_mod (n : Z) :
  map (λ i, ((n mod 2 ^ 48) ≫ (8 * i)) mod 256) [5; 4; 3; 2; 1; 0]
  = map (λ i, (n ≫ (8 * i)) mod 256) [5; 4; 3; 2; 1; 0].
Proof.
  simpl. rewrite !Z.shiftr_div_pow2 by lia.
  change (2 ^ 40) with 1099511627776. change (2 ^ 32) with 4294967296.
  change (2 ^ 24) with 16777216. change (2 ^ 16) with 65536.
  change (2 ^ 8) with 256. change (2 ^ 0) with 1.
  change (2 ^ 48) with 281474976710656.
  repeat match goal with
  | |- ?a :: _ = ?b :: _ =>
      replace a with b by (Z.div_mod_to_equations; lia); f_equal
  end.
Qed.

(** Parsing the text of an identity gives back its low 48 bits. *)
Lemma parse_String (n : PeerName) :
  mesh.PeerNameFromString (PeerName_String n) = (n mod 2 ^ 48, None).
Proof.
  rewrite String_as_octets, parse_rendered_octets by apply octets_in_range.
  rewrite decide_True by done. by rewrite octets_value.
Qed.

(** X1. [UnStringPeerName] reverses [String()], as its comment says, on the
    part of an identity that [String()] prints: for every identity [n],
    parsing [n.String()] succeeds and gives the low six bytes of [n], which
    is [n] itself when [n] is below [2^48].  [PeerNameFromMACAddr] is the
    same parser. *)
Theorem UnStringPeerName_reverses_String (n : PeerName) :
  UnStringPeerName (PeerName_String n) = (n mod 2 ^ 48, None)
  ∧ PeerNameFromMACAddr (PeerName_String n) = (n mod 2 ^ 48, None)
  ∧ (0 ≤ n < 2 ^ 48 → UnStringPeerName (PeerName_String n) = (n, None)).
Proof.
  rewrite UnStringPeerName_eq, PeerNameFromMACAddr_eq, parse_String.
  split; [done|]. split; [done|].
  intros Hn. by rewrite Z.mod_small.
Qed.

Lemma UnStringPeerName_reverses_String_witness :
  0 ≤ 73588229205 < 2 ^ 48
  ∧ UnStringPeerName (PeerName_String 73588229205) = (73588229205, None).
Proof.
  assert (Hn : 0 ≤ 73588229205 < 2 ^ 48) by (split; [lia|reflexivity]).
  split; [exact Hn|].
  exact (proj2 (proj2 (UnStringPeerName_reverses_String 73588229205)) Hn).
Defined.

(** X2. Only the lower six bytes of an identity are used in its text: two
    identities print the same exactly when they agree modulo [2^48]. *)
Theorem String_uses_low_six_bytes (n m : PeerName) :
  PeerName_String n = PeerName_String m ↔ n mod 2 ^ 48 = m mod 2 ^ 48.
Proof.
  split.
  - intros Heq. pose proof (parse_String n) as Hn.
    rewrite Heq, parse_String in Hn. by injection Hn.
  - intros Heq. rewrite !String_as_octets.
    by rewrite <- (octets_mod n), <- (octets_mod m), Heq.
Qed.

Lemma big_endian_value_of_map (h : list byte) (acc : Z) :
  fold_left (λ acc o, acc * 256 + o) (map u8 h) acc
  = fold_left (λ acc x, acc * 256 + u8 x) h acc.
Proof. revert acc. induction h as [|b h IH]; intros acc; [done|]. apply IH. Qed.

Lemma HardwareAddr_String_octets (h : HardwareAddr) :
  HardwareAddr_String h = join_colon (map hex_octet (map u8 h)).
Proof. by rewrite HardwareAddr_String_join, map_map. Qed.

Lemma u8_all_in_range (h : list byte) : Forall (λ v, 0 ≤ v < 256) (map u8 h).
Proof. apply Forall_map, Forall_true. intros b. apply u8_range. Qed.

(** The six low octets of a value assembled from eight. *)
Lemma low_octets_of_eight (v0 v1 v2 v3 v4 v5 v6 v7 : Z) :
  0 ≤ v0 < 256 → 0 ≤ v1 < 256 → 0 ≤ v2 < 256 → 0 ≤ v3 < 256 →
  0 ≤ v4 < 256 → 0 ≤ v5 < 256 → 0 ≤ v6 < 256 → 0 ≤ v7 < 256 →
  let n := ((((((v0 * 256 + v1) * 256 + v2) * 256 + v3) * 256 + v4) * 256
             + v5) * 256 + v6) * 256 + v7 in
  map (λ i, (n ≫ (8 * i)) mod 256) [5; 4; 3; 2; 1; 0]
  = [v2; v3; v4; v5; v6; v7].
Proof.
  intros H0 H1 H2 H3 H4 H5 H6 H7 n. simpl.
  rewrite !Z.shiftr_div_pow2 by lia.
  change (2 ^ 40) with 1099511627776. change (2 ^ 32) with 4294967296.
  change (2 ^ 24) with 16777216. change (2 ^ 16) with 65536.
  change (2 ^ 8) with 256. change (2 ^ 0) with 1.
  repeat f_equal; subst n; Z.div_mod_to_equations; lia.
Qed.

(** X3. Below eight bytes, [PeerNameFromHardwareAddr] succeeds on six-byte
    addresses only.  A six-byte address gives the big-endian value of its
    bytes, below [2^48], and that identity prints as the address itself.  An
    address of zero to five or of seven bytes gives [PeerName(0)] and a
    parse error: its rendering has no elision and not six groups.  (The
    parser is [mesh.PeerNameFromString] as modelled from the spec.) *)
Theorem PeerNameFromHardwareAddr_below_eight (E : Platform)
    (h : HardwareAddr) :
  (length h < 8)%nat →
  PeerNameFromHardwareAddr E h
  = (if decide (length h = 6%nat) then (big_endian_value h, None)
     else (0, Some "invalid peer name format"))
  ∧ (length h = 6%nat →
     0 ≤ big_endian_value h < 2 ^ 48
     ∧ PeerName_String (big_endian_value h) = HardwareAddr_String h).
Proof.
  intros Hlt. split.
  - unfold PeerNameFromHardwareAddr.
    rewrite decide_False by lia. rewrite decide_True by done.
    rewrite PeerNameFromMACAddr_eq, HardwareAddr_String_octets.
    rewrite parse_rendered_octets by apply u8_all_in_range.
    rewrite length_map. case_decide; [|done].
    by rewrite big_endian_value_of_map.
  - intros Hlen. clear Hlt.
    destruct h as [|b0 [|b1 [|b2 [|b3 [|b4 [|b5 [|? ?]]]]]]];
      try discriminate Hlen.
    clear Hlen.
    rewrite String_as_octets, HardwareAddr_String_octets.
    unfold big_endian_value. simpl fold_left. simpl (map u8 _).
    pose proof (low_octets_of_eight 0 0 (u8 b0) (u8 b1) (u8 b2) (u8 b3)
                  (u8 b4) (u8 b5)) as Hoct.
    pose proof (u8_range b0). pose proof (u8_range b1).
    pose proof (u8_range b2). pose proof (u8_range b3).
    pose proof (u8_range b4). pose proof (u8_range b5).
    cbv zeta in Hoct. rewrite !Z.mul_0_l, !Z.add_0_l in *.
    rewrite Hoct by lia. split; [|done].
    change (2 ^ 48) with 281474976710656. lia.
Qed.

Lemma PeerNameFromHardwareAddr_below_eight_witness :
  ((length [x00; x1b; x22; x33; x44; x5f] < 8)%nat
   ∧ length [x00; x1b; x22; x33; x44; x5f] = 6%nat)
  ∧ PeerNameFromHardwareAddr toy [x00; x1b; x22; x33; x44; x5f]
    = (116537902175, None)
  ∧ PeerName_String 116537902175 = "00:1b:22:33:44:5f"
  ∧ PeerNameFromHardwareAddr toy [x00; x1b; x22; x33; x44; x5f; x01]
    = (0, Some "invalid peer name format").
Proof.
  assert (H6 : (length [x00; x1b; x22; x33; x44; x5f] < 8)%nat)
    by (simpl; lia).
  assert (H7 : (length [x00; x1b; x22; x33; x44; x5f; x01] < 8)%nat)
    by (simpl; lia).
  split; [by split|].
  destruct (PeerNameFromHardwareAddr_below_eight toy _ H6) as [Hsix Hprint].
  destruct (PeerNameFromHardwareAddr_below_eight toy _ H7) as [Hseven _].
  split; [exact Hsix|]. split; [exact (proj2 (Hprint eq_refl))|exact Hseven].
Defined.

(** X4. The identity of an eight-byte address is the big-endian value of all
    eight bytes, but its text shows the last six only: the first two bytes of
    the address do not appear in [String()]. *)
Theorem PeerNameFromHardwareAddr_eight_prints_six (E : Platform)
    (h : HardwareAddr) :
  length h = 8%nat →
  PeerName_String (PeerNameFromHardwareAddr E h).1
  = HardwareAddr_String (drop 2 h).
Proof.
  intros Hlen. unfold PeerNameFromHardwareAddr.
  rewrite decide_True by done. simpl.
  destruct (BigEndian_Uint64_value h Hlen) as [-> _].
  destruct h as [|b0 [|b1 [|b2 [|b3 [|b4 [|b5 [|b6 [|b7 [|? ?]]]]]]]]];
    try discriminate Hlen.
  clear Hlen.
  rewrite String_as_octets, HardwareAddr_String_octets.
  unfold big_endian_value. simpl fold_left. simpl (map u8 _).
  pose proof (low_octets_of_eight (u8 b0) (u8 b1) (u8 b2) (u8 b3)
                (u8 b4) (u8 b5) (u8 b6) (u8 b7)) as Hoct.
  cbv zeta in Hoct. rewrite !Z.mul_0_l, !Z.add_0_l in *.
  by rewrite Hoct by apply u8_range.
Qed.

Lemma PeerNameFromHardwareAddr_eight_prints_six_witness :
  length [xaa; xbb; x00; x1b; x22; x33; x44; x5f] = 8%nat
  ∧ PeerName_String
      (PeerNameFromHardwareAddr toy
         [xaa; xbb; x00; x1b; x22; x33; x44; x5f]).1
    = "00:1b:22:33:44:5f".
Proof.
  split; [reflexivity|].
  exact (PeerNameFromHardwareAddr_eight_prints_six toy
           [xaa; xbb; x00; x1b; x22; x33; x44; x5f] eq_refl).
Defined.

(** X5. The text of a nickname-derived identity is the first six bytes of
    the SHA-512 hash of the nickname, last of the six first: of the eight
    hash bytes that [PeerNameFromStringHash] reads, the seventh and eighth do
    not appear in [String()]. *)
Theorem PeerNameFromStringHash_prints_six (E : Platform) (s : string) :
  PeerName_String (PeerNameFromStringHash E s)
  = HardwareAddr_String
      (rev (take 6 (sha512_Sum512 E (list_byte_of_string s)))).
Proof.
  destruct (PeerNameFromStringHash_value (E:=E) s) as [-> _].
  pose proof (sha512_Size E (list_byte_of_string s)) as Hlen.
  destruct (sha512_Sum512 E (list_byte_of_string s))
    as [|b0 [|b1 [|b2 [|b3 [|b4 [|b5 [|b6 [|b7 h]]]]]]]];
    try discriminate Hlen.
  clear Hlen.
  rewrite String_as_octets, HardwareAddr_String_octets.
  change (take 8 (b0 :: b1 :: b2 :: b3 :: b4 :: b5 :: b6 :: b7 :: h))
    with [b0; b1; b2; b3; b4; b5; b6; b7].
  change (rev (take 6 (b0 :: b1 :: b2 :: b3 :: b4 :: b5 :: b6 :: b7 :: h)))
    with [b5; b4; b3; b2; b1; b0].
  unfold little_endian_value. simpl fold_right.
  change (map u8 [b5; b4; b3; b2; b1; b0])
    with [u8 b5; u8 b4; u8 b3; u8 b2; u8 b1; u8 b0].
  pose proof (low_octets_of_eight (u8 b7) (u8 b6) (u8 b5) (u8 b4)
                (u8 b3) (u8 b2) (u8 b1) (u8 b0)) as Hoct.
  cbv zeta in Hoct. specialize (Hoct (u8_range _) (u8_range _) (u8_range _)
    (u8_range _) (u8_range _) (u8_range _) (u8_range _) (u8_range _)).
  do 2 f_equal. etrans; [|exact Hoct].
  apply map_ext. intros i. do 2 f_equal. lia.
Qed.

(** ** The payload container, further *)

(** X6. [Merge] on containers is concatenation: it is associative, the empty
    container is neutral on both sides, and the length of a merge is the sum
    of the lengths. *)
Theorem Merge_concatenates (a b c : gd) :
  gd_Merge (gd_Merge a b) c = gd_Merge a (gd_Merge b c)
  ∧ gd_Merge a ([] : gd) = a
  ∧ gd_Merge ([] : gd) b = b
  ∧ length (gd_Merge a b) = (length a + length b)%nat.
Proof.
  rewrite !gd_Merge_flat. simpl. rewrite !app_nil_r.
  split; [by rewrite app_assoc|]. split; [done|]. split; [done|].
  apply length_app.
Qed.

(** X7. [Merge] is not idempotent: merging a container with itself gives the
    container back only when it is empty. *)
Theorem Merge_with_itself (a : gd) : gd_Merge a a = a ↔ a = [].
Proof.
  rewrite gd_Merge_flat. simpl. rewrite app_nil_r. split.
  - intros Heq. apply (f_equal length) in Heq. rewrite length_app in Heq.
    destruct a; [done|]. simpl in Heq. lia.
  - by intros ->.
Qed.

(** ** Connecting, further *)

Section Connecting.
Context {E : Platform}.
Implicit Types (s : State E) (p : ptr).

(** X8. With an address list that is not nil, [Connect] on a Peer that has a
    router makes one call [InitiateConnections]: it hands over the
    [String()] of every address, in the order of the list, with [replace]
    false, and returns the errors of that call as they are.  The Peers and
    the [PeerName] cells stay as they were. *)
Theorem Connect_hands_over_addresses p (addrs : list (TCPAddr E)) s pv router :
  peers (mem s) !! p = Some pv →
  Peer.Router pv = Some router →
  ∃ errs s',
    Connect p (Some addrs) s = Ok errs s'
    ∧ (errs, world (mem s'))
      = InitiateConnections E router (map (TCPAddr_String E) addrs) false
          (world (mem s))
    ∧ trace s'
      = trace s
        ++ [CallInitiateConnections router (map (TCPAddr_String E) addrs)
              false]
    ∧ names (mem s') = names (mem s)
    ∧ peers (mem s') = peers (mem s).
Proof.
  intros Hp Hr. rewrite (Connect_run p addrs s pv router Hp Hr).
  eexists _, _. split; [reflexivity|]. simpl.
  by destruct (InitiateConnections E router _ false (world (mem s))).
Qed.

Lemma no_Peer_panics {A} p (k : Peer.t E → M E A) s :
  (∃ a s', bind (load_Peer p) k s = Ok a s') →
  ∃ pv, peers (mem s) !! p = Some pv ∧ ∃ a s', k pv s = Ok a s'.
Proof.
  intros (a & s' & Hrun). revert Hrun.
  unfold load_Peer, get_mem, ret, panic, bind. simpl.
  destruct (peers (mem s) !! p) as [pv|]; [|discriminate].
  intros Hrun. exists pv. split; [done|]. by exists a, s'.
Qed.

Lemma no_router_panics {A} (x : option (Router E)) (k : Router E → M E A) s :
  (∃ a s', bind (deref x) k s = Ok a s') → ∃ router, x = Some router.
Proof.
  destruct x as [router|]; intros (a & s' & Hrun); [by exists router|].
  discriminate Hrun.
Qed.

(** X9. [Connect] with an address list that is not nil, and both lookups,
    complete exactly on a Peer that exists and has a router; on any other
    Peer, such as a [Peer{}] made by hand, they dereference a nil pointer. *)
Theorem operations_need_a_router p s :
  let has_router :=
    ∃ pv router, peers (mem s) !! p = Some pv ∧ Peer.Router pv = Some router in
  (∀ addrs : list (TCPAddr E),
     (∃ errs s', Connect p (Some addrs) s = Ok errs s') ↔ has_router)
  ∧ (∀ nick,
       (∃ r s', PeerNameFromNickName p nick s = Ok r s') ↔ has_router)
  ∧ (∀ name,
       (∃ r s', NickNameFromPeerName p name s = Ok r s') ↔ has_router).
Proof.
  intros has_router. repeat split.
  - intros Hok. apply no_Peer_panics in Hok as (pv & Hp & Hok).
    apply no_router_panics in Hok as [router Hr]. by exists pv, router.
  - intros (pv & router & Hp & Hr).
    destruct (Connect_outcome p (Some addrs) s pv router Hp Hr)
      as (errs & s' & Hrun & _). by exists errs, s'.
  - intros Hok. apply no_Peer_panics in Hok as (pv & Hp & Hok).
    apply no_router_panics in Hok as [router Hr]. by exists pv, router.
  - intros (pv & router & Hp & Hr).
    destruct (PeerNameFromNickName_run p nick s pv router Hp Hr)
      as (s' & Hrun & _). by eexists _, s'.
  - intros Hok. apply no_Peer_panics in Hok as (pv & Hp & Hok).
    apply no_router_panics in Hok as [router Hr]. by exists pv, router.
  - intros (pv & router & Hp & Hr).
    destruct (NickNameFromPeerName_run p name s pv router Hp Hr)
      as (s' & Hrun & _). by eexists _, s'.
Qed.

End Connecting.

(** ** Construction, further *)

Section Protocol.
Context {E : Platform}.
Implicit Types (s : State E) (p : ptr) (c : Config.t E).

(** The configuration that [New] hands to [mesh.NewRouter]. *)
Lemma New_trace c (l : Logger E) s :
  Config.NickName c ≠ "" →
  valid_Name s c →
  ∃ name router tx errs s',
    let peer := length (peers (mem s)) in
    let rx := {| receiver.p := peer |} in
    let mc :=
      {| mesh.Host := Config.Address c;
         mesh.Port := Config.Port c;
         mesh.ProtocolMinVersion := 2;
         mesh.Password := Config.Key c;
         mesh.ConnLimit := Z.max 0 (Config.ConnLimit c);
         mesh.PeerDiscovery := Config.AutoConnect c;
         mesh.TrustedSubnets := [] |} in
    New c l s = Ok (Some peer, errs, None) s'
    ∧ peers (mem s')
      = peers (mem s)
        ++ [{| Peer.OnMessage := Config.OnMessage c;
               Peer.OnBroadcast := Config.OnBroadcast c;
               Peer.TX := Some tx;
               Peer.RX := Some rx;
               Peer.Router := Some router |}]
    ∧ trace s'
      = trace s
        ++ [CallNewRouter mc name (Config.NickName c) l;
            CallNewGossip router "defaultchannel" rx]
        ++ (if decide (Config.Address c = "") then [] else [CallStart router])
        ++ match Config.InitialPeers c with
           | None => []
           | Some addrs =>
               [CallInitiateConnections router
                  (map (TCPAddr_String E) addrs) false]
           end
    ∧ match Config.InitialPeers c with
      | None => errs = None
      | Some _ => True
      end.
Proof.
  intros Hnick Hvalid.
  pose proof (New_run c l s Hnick Hvalid) as Hrun. cbv zeta in Hrun.
  match type of Hrun with
  | context [CallNewRouter ?m ?n _ _] =>
      set (mc := m) in *; set (name := n) in *
  end.
  set (r1 := NewRouter E mc name (Config.NickName c) l (world (mem s))) in *.
  set (r2 := NewGossip E r1.1 "defaultchannel"
               {| receiver.p := length (peers (mem s)) |} r1.2) in *.
  match type of Hrun with
  | context [Connect _ _ ?st] => set (s3 := st) in *
  end.
  destruct (Connect_outcome (length (peers (mem s))) (Config.InitialPeers c)
              s3 _ r1.1 (list_lookup_middle _ _ _ _ eq_refl) eq_refl)
    as (errs & s' & HC & Hnames & Hpeers & Hrest).
  rewrite HC in Hrun.
  exists name, r1.1, r2.1, errs, s'. cbv zeta.
  split; [exact Hrun|]. split; [by rewrite Hpeers|].
  assert (Hlisten : (if bool_decide (Config.Address c ≠ "")
                     then [CallStart r1.1] else [])
                    = if decide (Config.Address c = "") then []
                      else [CallStart r1.1]).
  { case_bool_decide; case_decide; done. }
  destruct (Config.InitialPeers c) as [addrs|].
  - destruct Hrest as (_ & _ & ->). split; [|done].
    subst s3. simpl. by rewrite Hlisten, <- !app_assoc.
  - destruct Hrest as [-> ->]. split; [|done].
    subst s3. simpl. by rewrite Hlisten, !app_nil_r.
Qed.


End Protocol.

(** ** Construction and what follows it *)

Section AfterNew.
Context {E : Platform}.
Variable run_handler : HandlerSemantics E.
Variable T : Endpoint E.
Implicit Types (s : State E) (p : ptr) (c : Config.t E).


Lemma Send_run p dst (message : list byte) s pv tx :
  peers (mem s) !! p = Some pv →
  Peer.TX pv = Some tx →
  let r := GossipUnicast T tx dst message (world (mem s)) in
  Send T p dst message s
  = Ok r.1 {| mem := {| names := names (mem s); peers := peers (mem s);
                        world := r.2 |};
              trace := trace s |}.
Proof.
  intros Hp Htx r. unfold Send.
  rewrite (bind_Ok _ _ _ _ _ (load_Peer_run _ _ _ Hp)), Htx.
  unfold deref. erewrite bind_Ok by reflexivity.
  unfold endpoint, bind, get_mem, put_mem, ret. simpl. fold r.
  by destruct r.
Qed.

Lemma Broadcast_run p (message : list byte) s pv tx :
  peers (mem s) !! p = Some pv →
  Peer.TX pv = Some tx →
  Broadcast T p message s
  = Ok () {| mem := {| names := names (mem s); peers := peers (mem s);
                       world := GossipBroadcast T tx message (world (mem s)) |};
             trace := trace s |}.
Proof.
  intros Hp Htx. unfold Broadcast.
  rewrite (bind_Ok _ _ _ _ _ (load_Peer_run _ _ _ Hp)), Htx.
  unfold deref. erewrite bind_Ok by reflexivity.
  reflexivity.
Qed.


(** X14. The dispatcher consults the handler that the Peer holds at the time
    of the event: once [OnMessage] of a Peer has been assigned, an inbound
    unicast on a receiver of that Peer goes by the assigned value, whatever
    the handler was before. *)
Theorem handler_read_at_event_time p (h : option Handler) s pv src
    (msg : list byte) :
  peers (mem s) !! p = Some pv →
  ∃ s1,
    update_Peer p (Peer.set_OnMessage h) s = Ok () s1
    ∧ match h with
      | None =>
          OnGossipUnicast run_handler {| receiver.p := p |} src msg s1
          = Ok None s1
      | Some H =>
          ∃ s2,
            OnGossipUnicast run_handler {| receiver.p := p |} src msg s1
            = Ok (run_handler H p src msg (mem s1)).1 s2
            ∧ trace s2 = trace s1 ++ [CallHandler H p src msg]
      end.
Proof.
  intros Hp. rewrite (update_Peer_run p _ s pv Hp).
  eexists. split; [reflexivity|].
  unfold OnGossipUnicast.
  erewrite bind_Ok.
  2:{ apply load_Peer_run. simpl. apply list_lookup_insert_eq.
      by eapply lookup_lt_Some. }
  rewrite handle_run. simpl. destruct h as [H|]; [|done].
  eexists. split; [reflexivity|done].
Qed.

End AfterNew.

(** ** Lookups, further *)

Section Lookups.
Context {E : Platform}.
Implicit Types (s : State E) (p : ptr) (ds : list mesh.PeerDescription).

Lemma scan_NickName_found ds nick :
  let r := scan_NickName ds nick in
  (r.2 = true →
     ∃ pd, pd ∈ ds ∧ mesh.NickName pd = nick ∧ mesh.Name pd = r.1)
  ∧ (r.2 = false → r.1 = 0 ∧ ∀ pd, pd ∈ ds → mesh.NickName pd ≠ nick).
Proof.
  induction ds as [|x ds IH]; simpl.
  - split; [done|]. intros _. split; [done|]. by intros pd ?%not_elem_of_nil.
  - case_decide as Hx; simpl.
    + split; [|done]. intros _. exists x. split; [left|done].
    + destruct IH as [IHt IHf]. split.
      * intros Ht. destruct (IHt Ht) as (pd & Hpd & ?). exists pd.
        split; [by right|done].
      * intros Hf. destruct (IHf Hf) as [H0 Habs]. split; [done|].
        intros pd [->|Hpd]%elem_of_cons; [done|by apply Habs].
Qed.

Lemma scan_PeerName_found ds name :
  let r := scan_PeerName ds name in
  (r.2 = true →
     ∃ pd, pd ∈ ds ∧ mesh.Name pd = name ∧ mesh.NickName pd = r.1)
  ∧ (r.2 = false → r.1 = "" ∧ ∀ pd, pd ∈ ds → mesh.Name pd ≠ name).
Proof.
  induction ds as [|x ds IH]; simpl.
  - split; [done|]. intros _. split; [done|]. by intros pd ?%not_elem_of_nil.
  - case_decide as Hx; simpl.
    + split; [|done]. intros _. exists x. split; [left|done].
    + destruct IH as [IHt IHf]. split.
      * intros Ht. destruct (IHt Ht) as (pd & Hpd & ?). exists pd.
        split; [by right|done].
      * intros Hf. destruct (IHf Hf) as [H0 Habs]. split; [done|].
        intros pd [->|Hpd]%elem_of_cons; [done|by apply Habs].
Qed.

(** X15. What a lookup answers, on a Peer that has a router.  The flag of
    [PeerNameFromNickName] is true exactly when some entry of the membership
    view carries the nickname; the identity returned with true belongs to an
    entry with that nickname, the identity returned with false is 0.
    Likewise [NickNameFromPeerName], with the empty nickname for false. *)
Theorem lookups_sound_and_complete p s pv router :
  peers (mem s) !! p = Some pv →
  Peer.Router pv = Some router →
  let ds := Descriptions E router (world (mem s)) in
  (∀ nick, ∃ name ok s',
     PeerNameFromNickName p nick s = Ok (name, ok) s'
     ∧ (ok = true ↔ ∃ pd, pd ∈ ds ∧ mesh.NickName pd = nick)
     ∧ (ok = true →
        ∃ pd, pd ∈ ds ∧ mesh.NickName pd = nick ∧ mesh.Name pd = name)
     ∧ (ok = false → name = 0))
  ∧ (∀ name, ∃ nick ok s',
       NickNameFromPeerName p name s = Ok (nick, ok) s'
       ∧ (ok = true ↔ ∃ pd, pd ∈ ds ∧ mesh.Name pd = name)
       ∧ (ok = true →
          ∃ pd, pd ∈ ds ∧ mesh.Name pd = name ∧ mesh.NickName pd = nick)
       ∧ (ok = false → nick = "")).
Proof.
  intros Hp Hr ds. split.
  - intros nick.
    destruct (PeerNameFromNickName_run p nick s pv router Hp Hr)
      as (s' & Hrun & _). fold ds in Hrun.
    destruct (scan_NickName_found ds nick) as [Ht Hf].
    destruct (scan_NickName ds nick) as [name ok]. simpl in *.
    exists name, ok, s'. split; [done|]. split; [|split; [done|]].
    + split.
      * intros Hok. destruct (Ht Hok) as (pd & ? & ? & _). by exists pd.
      * intros (pd & Hpd & Hnick). destruct ok; [done|].
        destruct (Hf eq_refl) as [_ Habs]. by destruct (Habs pd Hpd).
    + intros Hok. by destruct (Hf Hok).
  - intros name.
    destruct (NickNameFromPeerName_run p name s pv router Hp Hr)
      as (s' & Hrun & _). fold ds in Hrun.
    destruct (scan_PeerName_found ds name) as [Ht Hf].
    destruct (scan_PeerName ds name) as [nick ok]. simpl in *.
    exists nick, ok, s'. split; [done|]. split; [|split; [done|]].
    + split.
      * intros Hok. destruct (Ht Hok) as (pd & ? & ? & _). by exists pd.
      * intros (pd & Hpd & Hname). destruct ok; [done|].
        destruct (Hf eq_refl) as [_ Habs]. by destruct (Habs pd Hpd).
    + intros Hok. by destruct (Hf Hok).
Qed.

Lemma scan_PeerName_unique ds pd :
  NoDup (map mesh.Name ds) → pd ∈ ds →
  scan_PeerName ds (mesh.Name pd) = (mesh.NickName pd, true).
Proof.
  induction ds as [|x ds IH]; intros Hnd Hpd; [by apply not_elem_of_nil in Hpd|].
  simpl in *. apply NoDup_cons in Hnd as [Hx Hnd].
  apply elem_of_cons in Hpd as [->|Hpd].
  - by rewrite decide_True.
  - rewrite decide_False; [by apply IH|].
    intros Heq. apply Hx. rewrite Heq. by apply list_elem_of_fmap_2.
Qed.

Lemma scan_NickName_unique ds pd :
  NoDup (map mesh.NickName ds) → pd ∈ ds →
  scan_NickName ds (mesh.NickName pd) = (mesh.Name pd, true).
Proof.
  induction ds as [|x ds IH]; intros Hnd Hpd; [by apply not_elem_of_nil in Hpd|].
  simpl in *. apply NoDup_cons in Hnd as [Hx Hnd].
  apply elem_of_cons in Hpd as [->|Hpd].
  - by rewrite decide_True.
  - rewrite decide_False; [by apply IH|].
    intros Heq. apply Hx. rewrite Heq. by apply list_elem_of_fmap_2.
Qed.

(** X16. The two lookups undo each other where the membership view names
    its entries apart.  If no two entries share an identity, the identity
    found for a nickname is looked up back to that nickname; if no two
    entries share a nickname, the nickname found for an identity is looked
    up back to that identity.  The first lookup leaves the view as it is. *)
Theorem lookups_round_trip p s pv router :
  peers (mem s) !! p = Some pv →
  Peer.Router pv = Some router →
  let ds := Descriptions E router (world (mem s)) in
  (NoDup (map mesh.Name ds) →
   ∀ nick name s',
     PeerNameFromNickName p nick s = Ok (name, true) s' →
     ∃ s'', NickNameFromPeerName p name s' = Ok (nick, true) s'')
  ∧ (NoDup (map mesh.NickName ds) →
     ∀ nick name s',
       NickNameFromPeerName p name s = Ok (nick, true) s' →
       ∃ s'', PeerNameFromNickName p nick s' = Ok (name, true) s'').
Proof.
  intros Hp Hr ds. split.
  - intros Hnd nick name s' Hfirst.
    destruct (PeerNameFromNickName_run p nick s pv router Hp Hr)
      as (s1 & Hrun & Hmem & _). fold ds in Hrun.
    rewrite Hfirst in Hrun. injection Hrun as Hscan <-.
    destruct (scan_NickName_found ds nick) as [Ht _].
    rewrite <- Hscan in Ht. simpl in Ht.
    destruct (Ht eq_refl) as (pd & Hpd & <- & <-).
    rewrite <- Hmem in Hp.
    destruct (NickNameFromPeerName_run p (mesh.Name pd) s' pv router Hp Hr)
      as (s'' & Hrun' & _).
    rewrite Hmem in Hrun'. fold ds in Hrun'.
    rewrite scan_PeerName_unique in Hrun' by done. by exists s''.
  - intros Hnd nick name s' Hfirst.
    destruct (NickNameFromPeerName_run p name s pv router Hp Hr)
      as (s1 & Hrun & Hmem & _). fold ds in Hrun.
    rewrite Hfirst in Hrun. injection Hrun as Hscan <-.
    destruct (scan_PeerName_found ds name) as [Ht _].
    rewrite <- Hscan in Ht. simpl in Ht.
    destruct (Ht eq_refl) as (pd & Hpd & <- & <-).
    rewrite <- Hmem in Hp.
    destruct (PeerNameFromNickName_run p (mesh.NickName pd) s' pv router
                Hp Hr) as (s'' & Hrun' & _).
    rewrite Hmem in Hrun'. fold ds in Hrun'.
    rewrite scan_NickName_unique in Hrun' by done. by exists s''.
Qed.

(** X17. [getNickName] of the commander, on a Peer that has a router: the
    nickname of the first entry of the membership view that carries the
    identity, and ["?"] when no entry carries it.  It leaves the memory as it
    is. *)
Theorem getNickName_first_or_question_mark p pn s pv router :
  peers (mem s) !! p = Some pv →
  Peer.Router pv = Some router →
  let ds := Descriptions E router (world (mem s)) in
  ((∀ pd, pd ∈ ds → mesh.Name pd ≠ pn) →
     ∃ s', getNickName p pn s = Ok "?" s' ∧ mem s' = mem s)
  ∧ (∀ pre pd post,
       ds = pre ++ pd :: post →
       (∀ x, x ∈ pre → mesh.Name x ≠ pn) →
       mesh.Name pd = pn →
       ∃ s', getNickName p pn s = Ok (mesh.NickName pd) s' ∧ mem s' = mem s).
Proof.
  intros Hp Hr ds.
  destruct (NickNameFromPeerName_run p pn s pv router Hp Hr)
    as (s' & Hrun & Hmem & _). fold ds in Hrun.
  unfold getNickName. rewrite (bind_Ok _ _ _ _ _ Hrun). split.
  - intros Habs. rewrite scan_PeerName_absent by done. by exists s'.
  - intros pre pd post Hds Hpre Hpd.
    rewrite Hds, scan_PeerName_first by done. by exists s'.
Qed.

End Lookups.

(** ** examples/magent: makeInitialPeers *)

Section AgentProperties.
Context {Addr Resolver : Type}.
Variable ResolveTCPAddr :
  string → string → Resolver → (Addr + error) * Resolver.
Implicit Types (acc : Resolved Addr Resolver) (parts : list string).

Lemma blank_part (p : string) : 0%nat = String.length p ↔ p = "".
Proof. by destruct p. Qed.

Lemma resolve_part_blank acc : resolve_part ResolveTCPAddr acc "" = acc.
Proof. done. Qed.

(** Every part that is not blank ends up among the addresses or among the
    logged failures. *)
Lemma loop_accounts parts acc :
  let acc' := fold_left (resolve_part ResolveTCPAddr) parts acc in
  (length (ips acc') + length (unresolved acc')
   = length (ips acc) + length (unresolved acc)
     + length (filter (λ p, p ≠ "") parts))%nat.
Proof.
  revert acc. induction parts as [|p parts IH]; intros acc; simpl; [lia|].
  rewrite IH. unfold resolve_part.
  destruct (decide (p = "")) as [->|Hp].
  - simpl. rewrite filter_cons_False by (intros ?; done). lia.
  - rewrite decide_False by (by rewrite blank_part).
    rewrite filter_cons_True by done.
    destruct (ResolveTCPAddr "tcp" p (resolver acc)) as [[a|err] r]; simpl;
      rewrite length_app; simpl; lia.
Qed.

(** X18. [makeInitialPeers] accounts for every part of the comma-separated
    list that is not blank: each is either among the addresses or among the
    logged failures, so their numbers add up to the number of such parts.
    It never returns an empty slice: with no address it ends the process
    instead, as its comment says; so it does on a list with blank parts
    only, such as the empty string. *)
Theorem makeInitialPeers_accounts (l : string) (r : Resolver) :
  let out := makeInitialPeers ResolveTCPAddr l r in
  let asked := filter (λ p, p ≠ "") (strings_Split l ","%char) in
  (length (ips out.2) + length (unresolved out.2) = length asked)%nat
  ∧ match out.1 with
    | Returns a => a = ips out.2 ∧ a ≠ []
    | Fatal _ => ips out.2 = []
    end
  ∧ (asked = [] → ∃ message, out.1 = Fatal message).
Proof.
  intros out asked. subst out. unfold makeInitialPeers.
  pose proof (loop_accounts (strings_Split l ","%char)
                {| ips := []; unresolved := []; resolver := r |}) as Hacc.
  cbv zeta in Hacc. simpl in Hacc. fold asked in Hacc.
  set (acc := fold_left _ _ _) in *.
  destruct (ips acc) as [|a rest] eqn:Hips; simpl.
  - split; [by rewrite Hips|]. split; [done|]. intros _. by eexists.
  - split; [by rewrite Hips|]. split; [by rewrite Hips|].
    intros Hasked. rewrite Hasked in Hacc. simpl in Hacc. lia.
Qed.

Lemma loop_sound parts acc (P : Addr → Prop) (Q : string → error → Prop) :
  (∀ p r1 a r2, p ∈ parts → p ≠ "" →
     ResolveTCPAddr "tcp" p r1 = (inl a, r2) → P a) →
  (∀ p r1 err r2, p ∈ parts → p ≠ "" →
     ResolveTCPAddr "tcp" p r1 = (inr err, r2) → Q p err) →
  Forall P (ips acc) →
  Forall (λ x, Q x.1 x.2) (unresolved acc) →
  let acc' := fold_left (resolve_part ResolveTCPAddr) parts acc in
  Forall P (ips acc') ∧ Forall (λ x, Q x.1 x.2) (unresolved acc').
Proof.
  revert acc. induction parts as [|p parts IH]; intros acc HP HQ Hi Hu;
    simpl; [done|].
  apply IH.
  - intros. eapply HP; [by right|done..].
  - intros. eapply HQ; [by right|done..].
  - unfold resolve_part. case_decide as Hp; [done|].
    rewrite blank_part in Hp.
    destruct (ResolveTCPAddr "tcp" p (resolver acc)) as [[a|err] r] eqn:Hres;
      simpl; [|done].
    apply Forall_app. split; [done|]. constructor; [|done].
    eapply HP; [left|done..].
  - unfold resolve_part. case_decide as Hp; [done|].
    rewrite blank_part in Hp.
    destruct (ResolveTCPAddr "tcp" p (resolver acc)) as [[a|err] r] eqn:Hres;
      simpl; [done|].
    apply Forall_app. split; [done|]. constructor; [|done].
    eapply HQ; [left|done..].
Qed.


Lemma loop_in_order parts acc (f : string → Addr + error) :
  (∀ network address r, (ResolveTCPAddr network address r).1 = f address) →
  ips (fold_left (resolve_part ResolveTCPAddr) parts acc)
  = ips acc
    ++ omap (λ p, if decide (p = "") then None
                  else match f p with
                       | inl a => Some a
                       | inr _ => None
                       end) parts.
Proof.
  intros Hf. revert acc.
  induction parts as [|p parts IH]; intros acc; simpl.
  - by rewrite app_nil_r.
  - rewrite IH. unfold resolve_part.
    destruct (decide (p = "")) as [->|Hp]; [done|].
    rewrite decide_False by (by rewrite blank_part).
    specialize (Hf "tcp" p (resolver acc)).
    destruct (ResolveTCPAddr "tcp" p (resolver acc)) as [[a|err] r];
      simpl in *; rewrite <- Hf; simpl; [|done].
    by rewrite <- app_assoc.
Qed.

(** X20. When the answer of the resolver to an address does not depend on
    when it is asked, the addresses of [makeInitialPeers] are the answers to
    the parts that are not blank and that resolve, in the order of the list
    and as often as they occur. *)
Theorem makeInitialPeers_in_order (f : string → Addr + error) (l : string)
    (r : Resolver) :
  (∀ network address r', (ResolveTCPAddr network address r').1 = f address) →
  ips (makeInitialPeers ResolveTCPAddr l r).2
  = omap (λ p, if decide (p = "") then None
               else match f p with
                    | inl a => Some a
                    | inr _ => None
                    end) (strings_Split l ","%char).
Proof.
  intros Hf. unfold makeInitialPeers.
  pose proof (loop_in_order (strings_Split l ","%char)
                {| ips := []; unresolved := []; resolver := r |} f Hf) as Hips.
  simpl in Hips. by case_decide.
Qed.

End AgentProperties.

(** ** The further statements at work on the small platform *)

Lemma String_uses_low_six_bytes_witness :
  1 mod 2 ^ 48 = 281474976710657 mod 2 ^ 48
  ∧ PeerName_String 1 = PeerName_String 281474976710657.
Proof.
  assert (Hmod : 1 mod 2 ^ 48 = 281474976710657 mod 2 ^ 48) by reflexivity.
  split; [exact Hmod|].
  exact (proj2 (String_uses_low_six_bytes 1 281474976710657) Hmod).
Defined.

Lemma Merge_with_itself_witness :
  ([] : gd) = [] ∧ gd_Merge ([] : gd) ([] : gd) = [].
Proof.
  split; [reflexivity|]. exact (proj2 (Merge_with_itself []) eq_refl).
Defined.

Lemma Connect_hands_over_addresses_witness :
  (peers (mem toy_joined) !! 0%nat = Some toy_peer
   ∧ Peer.Router toy_peer = Some (7306357456645743973, "examplepeer"))
  ∧ ∃ s', Connect (E:=toy) 0%nat (Some ["down:1"; "up:1"]) toy_joined
          = Ok (Some ["cannot reach down:1"]) s'
          ∧ peers (mem s') = peers (mem toy_joined).
Proof.
  assert (Hp : peers (mem toy_joined) !! 0%nat = Some toy_peer)
    by reflexivity.
  assert (Hr : Peer.Router toy_peer
               = Some (7306357456645743973, "examplepeer")) by reflexivity.
  split; [by split|].
  destruct (Connect_hands_over_addresses 0%nat
              (["down:1"; "up:1"] : list (TCPAddr toy)) toy_joined toy_peer
              _ Hp Hr)
    as (errs & s' & Hrun & Hcall & _ & _ & Hpeers).
  exists s'. split; [|exact Hpeers].
  etrans; [exact Hrun|]. f_equal. exact (f_equal fst Hcall).
Defined.

Lemma operations_need_a_router_witness :
  (∃ (pv : Peer.t toy) (router : Router toy),
     peers (mem toy_joined) !! 0%nat = Some pv
                ∧ Peer.Router pv = Some router)
  ∧ (∃ errs s', Connect (E:=toy) 0%nat (Some ["up:1"]) toy_joined = Ok errs s')
  ∧ ¬ (∃ errs s', Connect (E:=toy) 0%nat (Some ["up:1"]) toy_bare = Ok errs s').
Proof.
  assert (Hhas : ∃ (pv : Peer.t toy) (router : Router toy),
            peers (mem toy_joined) !! 0%nat = Some pv
                              ∧ Peer.Router pv = Some router).
  { exists toy_peer, (7306357456645743973, "examplepeer"). by split. }
  split; [exact Hhas|].
  destruct (operations_need_a_router 0%nat toy_joined) as (Hjoined & _ & _).
  destruct (operations_need_a_router 0%nat toy_bare) as (Hbare & _ & _).
  split; [exact (proj2 (Hjoined (["up:1"] : list (TCPAddr toy))) Hhas)|].
  intros Hok.
  destruct (proj1 (Hbare (["up:1"] : list (TCPAddr toy))) Hok)
    as (pv & router & Hpv & Hrouter).
  injection Hpv as <-. discriminate Hrouter.
Defined.




Lemma handler_read_at_event_time_witness :
  peers (mem toy_joined) !! 0%nat = Some toy_peer
  ∧ ∃ s1,
      update_Peer 0%nat (Peer.set_OnMessage None) toy_joined = Ok () s1
      ∧ OnGossipUnicast toy_handlers {| receiver.p := 0%nat |} 5 [x68] s1
        = Ok None s1.
Proof.
  assert (Hp : peers (mem toy_joined) !! 0%nat = Some toy_peer)
    by reflexivity.
  split; [exact Hp|].
  destruct (handler_read_at_event_time toy_handlers 0%nat None toy_joined
              toy_peer 5 [x68] Hp) as (s1 & Hset & Hrun).
  exists s1. split; [exact Hset|exact Hrun].
Defined.

Lemma lookups_sound_and_complete_witness :
  (peers (mem toy_joined) !! 0%nat = Some toy_peer
   ∧ Peer.Router toy_peer = Some (7306357456645743973, "examplepeer"))
  ∧ ∃ name ok s',
      PeerNameFromNickName 0%nat "nobody" toy_joined = Ok (name, ok) s'
      ∧ (ok = false → name = 0).
Proof.
  assert (Hp : peers (mem toy_joined) !! 0%nat = Some toy_peer)
    by reflexivity.
  assert (Hr : Peer.Router toy_peer
               = Some (7306357456645743973, "examplepeer")) by reflexivity.
  split; [by split|].
  destruct (lookups_sound_and_complete 0%nat toy_joined toy_peer _ Hp Hr)
    as [Hnick _].
  destruct (Hnick "nobody") as (name & ok & s' & Hrun & _ & _ & Hzero).
  exists name, ok, s'. split; [exact Hrun|exact Hzero].
Defined.

Lemma lookups_round_trip_witness :
  (peers (mem toy_joined) !! 0%nat = Some toy_peer
   ∧ Peer.Router toy_peer = Some (7306357456645743973, "examplepeer")
   ∧ NoDup (map mesh.Name
              (Descriptions toy (7306357456645743973, "examplepeer")
                 (world (mem toy_joined)))))
  ∧ ∃ s' s'',
      PeerNameFromNickName 0%nat "controller" toy_joined = Ok (7, true) s'
      ∧ NickNameFromPeerName 0%nat 7 s' = Ok ("controller", true) s''.
Proof.
  assert (Hp : peers (mem toy_joined) !! 0%nat = Some toy_peer)
    by reflexivity.
  assert (Hr : Peer.Router toy_peer
               = Some (7306357456645743973, "examplepeer")) by reflexivity.
  assert (Hnd : NoDup (map mesh.Name
                  (Descriptions toy (7306357456645743973, "examplepeer")
                     (world (mem toy_joined))))).
  { change (NoDup [7306357456645743973; 7; 9]).
    apply (bool_decide_unpack _). reflexivity. }
  split; [by repeat split|].
  destruct (lookups_round_trip 0%nat toy_joined toy_peer _ Hp Hr)
    as [Hback _].
  eexists. 
  assert (Hfirst : PeerNameFromNickName 0%nat "controller" toy_joined
                   = Ok (7, true) _) by reflexivity.
  destruct (Hback Hnd "controller" 7 _ Hfirst) as [s'' Hrun].
  exists s''. split; [exact Hfirst|exact Hrun].
Defined.

Lemma getNickName_first_or_question_mark_witness :
  (peers (mem toy_joined) !! 0%nat = Some toy_peer
   ∧ Peer.Router toy_peer = Some (7306357456645743973, "examplepeer"))
  ∧ ∃ s', getNickName 0%nat 8 toy_joined = Ok "?" s'.
Proof.
  assert (Hp : peers (mem toy_joined) !! 0%nat = Some toy_peer)
    by reflexivity.
  assert (Hr : Peer.Router toy_peer
               = Some (7306357456645743973, "examplepeer")) by reflexivity.
  split; [by split|].
  destruct (getNickName_first_or_question_mark 0%nat 8 toy_joined toy_peer
              _ Hp Hr) as [Habsent _].
  destruct Habsent as (s' & Hrun & _); [|by exists s'].
  intros pd Hpd.
  change (pd ∈ [ {| mesh.Name := 7306357456645743973;
                    mesh.NickName := "examplepeer" |};
                 {| mesh.Name := 7; mesh.NickName := "controller" |};
                 {| mesh.Name := 9; mesh.NickName := "controller" |} ])
    in Hpd.
  repeat (apply elem_of_cons in Hpd as [->|Hpd]; [discriminate|]).
  destruct (not_elem_of_nil _ Hpd).
Defined.

Lemma makeInitialPeers_accounts_witness :
  filter (λ p : string, p ≠ "") (strings_Split ",," ","%char) = []
  ∧ ∃ message, (makeInitialPeers toy_resolve ",," 0%nat).1 = Fatal message.
Proof.
  assert (Hblank : filter (λ p : string, p ≠ "")
                     (strings_Split ",," ","%char) = []) by reflexivity.
  split; [exact Hblank|].
  exact (proj2 (proj2 (makeInitialPeers_accounts toy_resolve ",," 0%nat))
           Hblank).
Defined.


Lemma makeInitialPeers_in_order_witness :
  (∀ network address r',
     (toy_resolve network address r').1
     = if decide (address = "up:1") then inl address else inr "no such host")
  ∧ ips (makeInitialPeers toy_resolve "up:1,,down:1,up:1," 0%nat).2
    = ["up:1"; "up:1"].
Proof.
  assert (Hf : ∀ network address r',
            (toy_resolve network address r').1
            = if decide (address = "up:1") then inl address
              else inr "no such host") by reflexivity.
  split; [exact Hf|].
  rewrite (makeInitialPeers_in_order toy_resolve _
             "up:1,,down:1,up:1," 0%nat Hf).
  reflexivity.
Defined.

(** * The listener and the message slice *)

(** ** New, when the listener may fail to start *)

Section ListeningRuns.
Context {E : Platform}.
Variable start : Router E → World E → World E + string.
Implicit Types (s : State E) (p : ptr) (c : Config.t E).

Lemma listen_step ns ps (v : Peer.t E) w tr r :
  Peer.Router v = Some r →
  bind (load_Peer (length ps))
    (λ pv, bind (deref (Peer.Router pv)) (λ r, Listening.listen start r))
    {| mem := {| names := ns; peers := ps ++ [v]; world := w |};
       trace := tr |}
  = match start r w with
    | inl w' => Ok () {| mem := {| names := ns; peers := ps ++ [v];
                                   world := w' |};
                         trace := tr ++ [CallStart r] |}
    | inr reason => Panic reason
    end.
Proof.
  intros Hr.
  erewrite bind_Ok by by apply load_Peer_run, list_lookup_middle.
  rewrite Hr. unfold deref.
  erewrite bind_Ok by reflexivity.
  unfold Listening.listen, bind, record_call, get_mem, put_mem, panic. simpl.
  by destruct (start r w).
Qed.

(** With a listener that always starts, [Listening.New] is [New]. *)
Lemma New_when_Start_returns c (l : Logger E) s :
  Listening.New (λ r w, inl (Start E r w)) c l s = New c l s.
Proof. reflexivity. Qed.

(** [New] with a nickname, step by step: it panics when [Start] does, and
    otherwise returns the Peer it has built and what [InitiateConnections]
    has returned. *)
Lemma Listening_New_run c (l : Logger E) s :
  Config.NickName c ≠ "" →
  valid_Name s c →
  let m := mem s in
  let p := length (peers m) in
  let rx := {| receiver.p := p |} in
  let made :=
    NewRouter E (router_config c) (identity_of m c) (Config.NickName c) l
      (world m) in
  let joined := NewGossip E made.1 "defaultchannel" rx made.2 in
  let pv :=
    {| Peer.OnMessage := Config.OnMessage c;
       Peer.OnBroadcast := Config.OnBroadcast c;
       Peer.TX := Some joined.1;
       Peer.RX := Some rx;
       Peer.Router := Some made.1 |} in
  let names' :=
    match Config.Name c with
    | None => names m ++ [PeerNameFromStringHash E (Config.NickName c)]
    | Some _ => names m
    end in
  let listened : World E + string :=
    if decide (Config.Address c = "") then inl joined.2
    else start made.1 joined.2 in
  Listening.New start c l s
  = match listened with
    | inr reason => Panic reason
    | inl w =>
        let dialled : slice error * World E :=
          match Config.InitialPeers c with
          | None => (None, w)
          | Some addrs =>
              InitiateConnections E made.1 (map (TCPAddr_String E) addrs)
                false w
          end in
        Ok (Some p, dialled.1, None)
           {| mem := {| names := names'; peers := peers m ++ [pv];
                        world := dialled.2 |};
              trace :=
                trace s
                ++ [CallNewRouter (router_config c) (identity_of m c)
                      (Config.NickName c) l;
                    CallNewGossip made.1 "defaultchannel" rx]
                ++ (if decide (Config.Address c = "") then []
                    else [CallStart made.1])
                ++ match Config.InitialPeers c with
                   | None => []
                   | Some addrs =>
                       [CallInitiateConnections made.1
                          (map (TCPAddr_String E) addrs) false]
                   end |}
    end.
Proof.
  intros Hnick Hvalid. cbv zeta.
  unfold Listening.New. rewrite decide_False by (intros Heq; by apply Hnick).
  unfold valid_Name in Hvalid. unfold router_config.
  destruct s as [[ns ps w] tr]. cbn [mem names peers world trace] in *.
  set (pn := PeerNameFromStringHash E (Config.NickName c)).
  set (nm := identity_of _ c).
  assert (Hfirst : ∃ c' ns' name,
    (match Config.Name c with
     | Some _ => ret c
     | None => bind (new_PeerName pn)
                 (λ a, ret (Config.set_Name (Some a) c))
     end) {| mem := {| names := ns; peers := ps; world := w |};
             trace := tr |}
    = Ok c' {| mem := {| names := ns'; peers := ps; world := w |};
               trace := tr |}
    ∧ ns' = match Config.Name c with
            | None => ns ++ [pn]
            | Some _ => ns
            end
    ∧ name = nm
    ∧ (∃ a, Config.Name c' = Some a ∧ ns' !! a = Some name)
    ∧ Config.Address c' = Config.Address c
    ∧ Config.Port c' = Config.Port c
    ∧ Config.Key c' = Config.Key c
    ∧ Config.AutoConnect c' = Config.AutoConnect c
    ∧ Config.ConnLimit c' = Config.ConnLimit c
    ∧ Config.NickName c' = Config.NickName c
    ∧ Config.InitialPeers c' = Config.InitialPeers c
    ∧ Config.OnMessage c' = Config.OnMessage c
    ∧ Config.OnBroadcast c' = Config.OnBroadcast c).
  { destruct (Config.Name c) as [a|] eqn:Hname.
    - destruct Hvalid as [v Hv].
      exists c, ns, v. repeat split; eauto.
      subst nm. unfold identity_of. rewrite Hname. simpl.
      transitivity (default 0 (Some v)); [done|]. f_equal. symmetry. exact Hv.
    - exists (Config.set_Name (Some (length ns)) c), (ns ++ [pn]), pn.
      repeat split.
      + subst nm. unfold identity_of. by rewrite Hname.
      + exists (length ns). split; [done|]. by apply list_lookup_middle. }
  destruct Hfirst as (c' & ns' & name & Hrun & <- & -> & (a & Ha & Hname)
                      & HAddress & HPort & HKey & HAuto & HLimit & HNick
                      & HPeers & HOnM & HOnB).
  rewrite (bind_Ok _ _ _ _ _ Hrun). cbv beta.
  set (c'' := if 0 >? Config.ConnLimit c'
              then Config.set_ConnLimit 0 c' else c').
  assert (Config.Name c'' = Some a
          ∧ Config.Address c'' = Config.Address c
          ∧ Config.Port c'' = Config.Port c
          ∧ Config.Key c'' = Config.Key c
          ∧ Config.AutoConnect c'' = Config.AutoConnect c
          ∧ Config.ConnLimit c'' = Z.max 0 (Config.ConnLimit c)
          ∧ Config.NickName c'' = Config.NickName c
          ∧ Config.InitialPeers c'' = Config.InitialPeers c
          ∧ Config.OnMessage c'' = Config.OnMessage c
          ∧ Config.OnBroadcast c'' = Config.OnBroadcast c)
    as (-> & -> & -> & -> & -> & -> & -> & -> & -> & ->).
  { subst c''. rewrite <- HLimit.
    destruct (Z.gtb_spec 0 (Config.ConnLimit c')); simpl;
      repeat split; try done; lia. }
  clear c'' c' Hrun Ha HAddress HPort HKey HAuto HLimit HNick HPeers
    HOnM HOnB.
  rewrite (bind_Ok _ _ _ _ _ (new_Peer_run _ _)).
  cbn [mem names peers world trace].
  erewrite bind_Ok by (apply load_PeerName_run; exact Hname).
  rewrite (bind_Ok _ _ _ _ _ (transport_run _ _ _)).
  cbn [mem names peers world trace].
  do 3 rewrite (bind_Ok _ _ _ _ _ (update_Peer_last _ _ _ _ _ _)).
  rewrite (bind_Ok _ _ _ _ _ (transport_run _ _ _)).
  cbn [mem names peers world trace].
  do 2 rewrite (bind_Ok _ _ _ _ _ (update_Peer_last _ _ _ _ _ _)).
  cbn [Peer.set_Router Peer.set_OnMessage Peer.set_OnBroadcast Peer.set_RX
         Peer.set_TX Peer.zero Peer.OnMessage Peer.OnBroadcast Peer.TX
         Peer.RX Peer.Router].
  change PROTOVERSION with 2.
  set (mc := {| mesh.Host := Config.Address c;
                mesh.Port := Config.Port c;
                mesh.ProtocolMinVersion := 2;
                mesh.Password := Config.Key c;
                mesh.ConnLimit := Z.max 0 (Config.ConnLimit c);
                mesh.PeerDiscovery := Config.AutoConnect c;
                mesh.TrustedSubnets := [] |}).
  set (made := NewRouter E mc nm (Config.NickName c) l w).
  set (joined := NewGossip E made.1 "defaultchannel"
                   {| receiver.p := length ps |} made.2).
  set (pv := {| Peer.OnMessage := Config.OnMessage c;
                Peer.OnBroadcast := Config.OnBroadcast c;
                Peer.TX := Some joined.1;
                Peer.RX := Some {| receiver.p := length ps |};
                Peer.Router := Some made.1 |}).
  assert (Hfinish : ∀ w' tr',
    bind (Connect (length ps) (Config.InitialPeers c))
      (λ errs, ret (Some (length ps), errs, (None : option error)))
      {| mem := {| names := ns'; peers := ps ++ [pv]; world := w' |};
         trace := tr' |}
    = let dialled : slice error * World E :=
        match Config.InitialPeers c with
        | None => (None, w')
        | Some addrs =>
            InitiateConnections E made.1 (map (TCPAddr_String E) addrs)
              false w'
        end in
      Ok (Some (length ps), dialled.1, None)
         {| mem := {| names := ns'; peers := ps ++ [pv];
                      world := dialled.2 |};
            trace := tr'
                     ++ match Config.InitialPeers c with
                        | None => []
                        | Some addrs =>
                            [CallInitiateConnections made.1
                               (map (TCPAddr_String E) addrs) false]
                        end |}).
  { intros w' tr'. destruct (Config.InitialPeers c) as [addrs|].
    - erewrite bind_Ok
        by (apply (Connect_run _ _ _ pv made.1);
            [by apply list_lookup_middle|reflexivity]).
      reflexivity.
    - cbv zeta. simpl. by rewrite app_nil_r. }
  destruct (decide ("" ≠ Config.Address c)) as [Haddr|Haddr].
  - rewrite decide_False by (intros Heq; by apply Haddr).
    rewrite decide_False by (intros Heq; by apply Haddr).
    unfold bind at 1.
    rewrite (listen_step ns' ps pv joined.2 _ made.1 eq_refl).
    destruct (start made.1 joined.2) as [w'|reason]; [|done].
    rewrite Hfinish. cbv zeta. by rewrite <- !app_assoc.
  - assert (Hempty : Config.Address c = "").
    { destruct (decide (Config.Address c = "")) as [Heq|Hne]; [done|].
      exfalso. apply Haddr. intros Heq. by apply Hne. }
    rewrite !decide_True by done.
    erewrite bind_Ok by reflexivity.
    rewrite Hfinish. cbv zeta. by rewrite <- !app_assoc.
Qed.

Lemma Listening_New_without_nickname c (l : Logger E) s :
  Config.NickName c = ""
  → Listening.New start c l s = Ok (None, None, Some "no nickname") s.
Proof. intros Hnick. unfold Listening.New. by rewrite decide_True. Qed.

(** C3, amended.  [New] returns a non-nil fatal error exactly when the
    nickname is the empty string, and then returns a nil Peer and a nil
    error list, and has done nothing.  With a nickname, [New] returns when
    the address is empty or [router.Start()] returns: the fatal error is
    nil, the Peer is the one [New] has built, with the handlers of the
    configuration, the router, the send endpoint and the receive hook, and
    the error list is nil for a nil list of initial peers, and otherwise
    what [InitiateConnections] returns for their addresses.  When
    [router.Start()] panics, [New] panics with it and returns nothing. *)
Theorem New_fatal_error_or_Peer_or_panic c (l : Logger E) s :
  valid_Name s c →
  (Config.NickName c = ""
   → Listening.New start c l s = Ok (None, None, Some "no nickname") s)
  ∧ (Config.NickName c ≠ "" →
       let p := length (peers (mem s)) in
       let rx := {| receiver.p := p |} in
       let made :=
         NewRouter E (router_config c) (identity_of (mem s) c)
           (Config.NickName c) l (world (mem s)) in
       let joined := NewGossip E made.1 "defaultchannel" rx made.2 in
       let listened : World E + string :=
         if decide (Config.Address c = "") then inl joined.2
         else start made.1 joined.2 in
       match listened with
       | inr reason => Listening.New start c l s = Panic reason
       | inl w =>
           let dialled : slice error * World E :=
             match Config.InitialPeers c with
             | None => (None, w)
             | Some addrs =>
                 InitiateConnections E made.1
                   (map (TCPAddr_String E) addrs) false w
             end in
           ∃ s',
             Listening.New start c l s = Ok (Some p, dialled.1, None) s'
             ∧ peers (mem s')
               = peers (mem s)
                 ++ [{| Peer.OnMessage := Config.OnMessage c;
                        Peer.OnBroadcast := Config.OnBroadcast c;
                        Peer.TX := Some joined.1;
                        Peer.RX := Some rx;
                        Peer.Router := Some made.1 |}]
             ∧ world (mem s') = dialled.2
       end)
  ∧ (∀ peer errs err s',
       Listening.New start c l s = Ok (peer, errs, err) s'
       → (err ≠ None ↔ Config.NickName c = "")
         ∧ (err = None ↔ peer ≠ None)).
Proof.
  intros Hvalid.
  split; [by apply Listening_New_without_nickname|].
  split.
  - intros Hnick. cbv zeta.
    rewrite (Listening_New_run c l s Hnick Hvalid). cbv zeta.
    match goal with
    | |- match ?x with _ => _ end => destruct x as [w|reason]
    end; [|done].
    eexists. split; [reflexivity|]. done.
  - intros peer errs err s'.
    destruct (decide (Config.NickName c = "")) as [Hnick|Hnick].
    + rewrite (Listening_New_without_nickname c l s Hnick).
      intros [= <- <- <- <-]. split; split; done.
    + rewrite (Listening_New_run c l s Hnick Hvalid). cbv zeta.
      match goal with
      | |- match ?x with _ => _ end = _ → _ => destruct x as [w|reason]
      end; [|done].
      intros [= <- <- <- <-]. split; split; done.
Qed.


End ListeningRuns.

(** ** Dispatch, when handlers write to the message *)

Section InPlaceDispatch.
Context {E : Platform}.
Implicit Types (s : State E) (r : receiver.t).

Lemma written_length (msg : list byte) ws :
  length (InPlace.written msg ws) = length msg.
Proof.
  unfold InPlace.written. revert msg.
  induction ws as [|[i x] ws IH]; intros msg; [done|].
  simpl. by rewrite IH, length_insert.
Qed.

(** Assignments that change no byte leave the slice as it was. *)
Lemma written_same (msg : list byte) ws :
  (∀ i x, (i, x) ∈ ws → msg !! i = Some x ∨ (length msg ≤ i)%nat) →
  InPlace.written msg ws = msg.
Proof.
  unfold InPlace.written.
  induction ws as [|[i x] ws IH]; intros Hws; [done|].
  simpl.
  assert (Hstep : <[i := x]> msg = msg).
  { destruct (Hws i x) as [Hi|Hi]; [left| |].
    - by apply list_insert_id.
    - by apply list_insert_ge. }
  rewrite Hstep. apply IH. intros j y Hj. apply Hws. by right.
Qed.

Lemma InPlace_handle_run (run_handler : InPlace.HandlerSemantics E) r
    (f : option Handler) src (msg : list byte) s :
  InPlace.handle run_handler r f src msg s
  = match f with
    | None => Ok (None, msg) s
    | Some H =>
        let out := run_handler H (receiver.p r) src msg (mem s) in
        Ok (out.1.1, InPlace.written msg out.2)
           {| mem := out.1.2;
              trace := trace s
                       ++ [CallHandler H (receiver.p r) src msg] |}
    end.
Proof.
  destruct f as [H|]; [|done]. simpl.
  unfold InPlace.call_handler, bind, record_call, get_mem, put_mem, ret.
  simpl.
  by destruct (run_handler H (receiver.p r) src msg (mem s)) as [[err m'] ws].
Qed.

(** With handlers that write nothing, the dispatcher is the one above. *)
Lemma InPlace_read_only (run_handler : HandlerSemantics E) r src
    (msg : list byte) s :
  InPlace.OnGossipBroadcast (read_only run_handler) r src msg s
  = OnGossipBroadcast run_handler r src msg s
  ∧ InPlace.OnGossipUnicast (read_only run_handler) r src msg s
    = OnGossipUnicast run_handler r src msg s.
Proof.
  unfold InPlace.OnGossipBroadcast, InPlace.OnGossipUnicast,
    OnGossipBroadcast, OnGossipUnicast.
  destruct (load_Peer (receiver.p r) s) as [pv s1|reason] eqn:Hload.
  - rewrite !(bind_Ok _ _ _ _ _ Hload).
    unfold bind. rewrite !InPlace_handle_run, !handle_run.
    split.
    + by destruct (Peer.OnBroadcast pv).
    + by destruct (Peer.OnMessage pv).
  - unfold bind. by rewrite Hload.
Qed.

Variable run_handler : InPlace.HandlerSemantics E.

(** C4, amended.  For every inbound broadcast [(src, msg)], on a receiver
    whose Peer exists, [OnGossipBroadcast] returns the slice [msg] as its
    container: [Encode()] yields one slice, of the length of the payload,
    with the bytes that the handler has left in [msg].  They are exactly the
    received payload when no handler is registered, and when the handler
    changes no byte of the message, whatever its outcome.  The error
    returned is the handler's outcome, and nil when no handler is
    registered. *)
Theorem OnGossipBroadcast_returns_message_slice r src (msg : list byte) s pv :
  peers (mem s) !! receiver.p r = Some pv →
  ∃ (g : gd) err s',
    InPlace.OnGossipBroadcast run_handler r src msg s = Ok (g, err) s'
    ∧ Encode g = [g]
    ∧ length g = length msg
    ∧ match Peer.OnBroadcast pv with
      | None => g = msg ∧ err = None ∧ s' = s
      | Some H =>
          let out := run_handler H (receiver.p r) src msg (mem s) in
          g = InPlace.written msg out.2
          ∧ ((∀ i x, (i, x) ∈ out.2
                     → msg !! i = Some x ∨ (length msg ≤ i)%nat)
             → Encode g = [msg])
          ∧ err = out.1.1
          ∧ s' = {| mem := out.1.2;
                    trace := trace s
                             ++ [CallHandler H (receiver.p r) src msg] |}
      end.
Proof.
  intros Hp. unfold InPlace.OnGossipBroadcast.
  rewrite (bind_Ok _ _ _ _ _ (load_Peer_run _ _ _ Hp)).
  unfold bind at 1. rewrite InPlace_handle_run.
  destruct (Peer.OnBroadcast pv) as [H|].
  - eexists _, _, _. split; [reflexivity|]. split; [done|].
    split; [by apply written_length|]. cbv zeta.
    split; [done|]. split; [|done].
    intros Hsame. simpl. by rewrite written_same.
  - eexists _, _, _. split; [reflexivity|]. done.
Qed.

End InPlaceDispatch.

(** ** These statements at work on the small platform *)

Lemma New_fatal_error_or_Peer_or_panic_witness :
  valid_Name toy_start toy_config
  ∧ ∃ s',
      Listening.New toy_listens toy_config () toy_start
      = Ok (Some 0%nat, Some ["cannot reach down:1"], None) s'
      ∧ peers (mem s') = [toy_peer].
Proof.
  assert (Hvalid : valid_Name toy_start toy_config) by exact I.
  split; [exact Hvalid|].
  destruct (New_fatal_error_or_Peer_or_panic toy_listens toy_config ()
              toy_start Hvalid) as (_ & Hnew & _).
  assert (Hnick : Config.NickName toy_config ≠ "") by discriminate.
  destruct (Hnew Hnick) as (s' & Hrun & Hpeers & _).
  exists s'. split; [exact Hrun|exact Hpeers].
Defined.

(** C3, as the claim has it, fails: with a nickname, and an address whose
    port is taken, [New] panics in [router.Start()] and returns neither a
    Peer nor an error. *)
Lemma New_panics_when_Start_panics :
  Config.NickName toy_config ≠ ""
  ∧ Config.Address toy_config ≠ ""
  ∧ valid_Name toy_start toy_config
  ∧ Listening.New toy_busy toy_config () toy_start
    = Panic "listen tcp 0.0.0.0:3333: bind: address already in use"
  ∧ ∀ r s', Listening.New toy_busy toy_config () toy_start ≠ Ok r s'.
Proof.
  split; [discriminate|]. split; [discriminate|]. split; [exact I|].
  split; [reflexivity|].
  intros r s' Heq. vm_compute in Heq. discriminate Heq.
Qed.


Lemma OnGossipBroadcast_returns_message_slice_witness :
  peers (mem toy_joined) !! receiver.p {| receiver.p := 0%nat |}
  = Some toy_peer
  ∧ ∃ g s',
      InPlace.OnGossipBroadcast toy_scribbler {| receiver.p := 0%nat |} 5
        [x68; x69] toy_joined
      = Ok (g, Some "handler failed") s'
      ∧ Encode g = [[x00; x69]].
Proof.
  assert (Hp : peers (mem toy_joined) !! receiver.p {| receiver.p := 0%nat |}
               = Some toy_peer) by reflexivity.
  split; [exact Hp|].
  destruct (OnGossipBroadcast_returns_message_slice toy_scribbler
              {| receiver.p := 0%nat |} 5 [x68; x69] toy_joined toy_peer Hp)
    as (g & err & s' & Hrun & Hg & _ & Hrest).
  exists g, s'.
  change (Peer.OnBroadcast toy_peer) with (Some 1%nat) in Hrest.
  cbv beta iota zeta in Hrest. destruct Hrest as (Hbytes & _ & Herr & _).
  split.
  - rewrite Hrun, Herr. reflexivity.
  - rewrite Hg, Hbytes. reflexivity.
Defined.

(** C4, as the claim has it, fails: a broadcast handler that sets the first
    byte of the message changes the container that [OnGossipBroadcast]
    returns, whose [Encode()] is then not the payload that was received. *)
Lemma OnGossipBroadcast_handler_changes_payload :
  peers (mem toy_joined) !! 0%nat = Some toy_peer
  ∧ Peer.OnBroadcast toy_peer = Some 1%nat
  ∧ ∃ g s',
      InPlace.OnGossipBroadcast toy_scribbler {| receiver.p := 0%nat |} 5
        [x68; x69] toy_joined
      = Ok (g, Some "handler failed") s'
      ∧ Encode g = [[x00; x69]]
      ∧ Encode g ≠ [[x68; x69]].
Proof.
  split; [reflexivity|]. split; [reflexivity|].
  eexists _, _. split; [reflexivity|]. split; [reflexivity|].
  discriminate.
Qed.
